(** * Ray tracing in a cylindrical fibre: [fiber/fibers.py] and
      [figures/ray_cylinder.py]

    The Python code computes with numpy floats.  The embedding is written
    once over an abstract numeric interface ([Numeric]), so that everything
    that depends only on the control flow of [calculate_trajectory] holds
    for every implementation of the arithmetic.  The geometric facts are
    proved for one instance, [npfloat]: exact real arithmetic extended with
    a not-a-number value produced where numpy produces one. *)

From Stdlib Require Import Reals Lra Lia ZArith String Bool.
From stdpp Require Import base list.

Set Default Proof Using "Type".

(** ** The numeric interface *)

Declare Scope np_scope.
Delimit Scope np_scope with np.

Class Numeric (F : Type) : Type := {
  of_Z : Z -> F;             (* a Python [int] literal used as a float *)
  np_add : F -> F -> F;
  np_sub : F -> F -> F;
  np_mul : F -> F -> F;
  np_div : F -> F -> F;
  np_neg : F -> F;
  np_abs : F -> F;
  np_sqrt : F -> F;
  np_sin : F -> F;
  np_cos : F -> F;
  np_arccos : F -> F;
  np_arcsin : F -> F;
  np_pi : F;
  np_eqb : F -> F -> bool;   (* [==] *)
  np_ltb : F -> F -> bool    (* [<] *)
}.

Infix "+" := np_add : np_scope.
Infix "-" := np_sub : np_scope.
Infix "*" := np_mul : np_scope.
Infix "/" := np_div : np_scope.
Notation "- x" := (np_neg x) : np_scope.
Infix "==" := np_eqb (at level 70, no associativity) : np_scope.
Infix "<?" := np_ltb : np_scope.
Notation "x >? y" := (np_ltb y x) : np_scope.

(** Python exceptions that the modelled code can raise. *)
Inductive exn : Set :=
| ZeroDivisionError  (* [/] on Python floats with divisor zero *)
| IndexError         (* subscript outside an array *)
| ValueError.        (* [np.zeros] with a negative dimension *)

(** What [calculate_trajectory] returns: [Dots], [np.rad2deg(Angles)], the
    number of recorded entries and the reason the ray stopped. *)
Definition result (F : Type) : Type :=
  list (F * F * F) * list (F * F * F) * Z * string.

(** Control flow of a Python function body: it goes on with a value,
    executes [return], or raises. *)
Inductive flow (F A : Type) : Type :=
| Normal (a : A)
| Returned (r : result F)
| Raised (e : exn).
Arguments Normal {F A} a.
Arguments Returned {F A} r.
Arguments Raised {F A} e.

#[global] Instance flow_ret {F} : MRet (flow F) := fun _ a => Normal a.
#[global] Instance flow_bind {F} : MBind (flow F) := fun _ _ k m =>
  match m with
  | Normal a => k a
  | Returned r => Returned r
  | Raised e => Raised e
  end.

(** [range(a, b)] *)
Definition py_range (a b : Z) : list Z :=
  (fun k : nat => (a + Z.of_nat k)%Z) <$> seq 0 (Z.to_nat (b - a)).

(** [for i in indices: st = body(i, st)] *)
Fixpoint for_loop {F St} (body : Z -> St -> flow F St) (indices : list Z)
  (st : St) : flow F St :=
  match indices with
  | [] => Normal st
  | i :: rest => st' ← body i st; for_loop body rest st'
  end.

(** [a[i] = row] on the first axis of a numpy array: a negative subscript
    counts from the end, a subscript outside the array raises. *)
Definition setitem {F A} (a : list A) (i : Z) (row : A) : flow F (list A) :=
  let n := Z.of_nat (length a) in
  let j := if (i <? 0)%Z then (i + n)%Z else i in
  if ((0 <=? j) && (j <? n))%Z then Normal (<[Z.to_nat j := row]> a)
  else Raised IndexError.

(** ** Generic embedding *)

Section Generic.
Context {F : Type} `{Numeric F}.
Local Open Scope np_scope.

Definition vec3 : Type := F * F * F.

Definition idx0 (v : vec3) : F := v.1.1.
Definition idx1 (v : vec3) : F := v.1.2.
Definition idx2 (v : vec3) : F := v.2.

(** [x ** 2] *)
Definition pow2 (x : F) : F := x * x.

(** The literal [0.5]. *)
Definition lit_half : F := of_Z 1 / of_Z 2.

(** [np.rad2deg], applied to one number, to a row and to an array. *)
Definition rad2deg (x : F) : F := x * (of_Z 180 / np_pi).
Definition rad2deg_row (r : vec3) : vec3 :=
  (rad2deg (idx0 r), rad2deg (idx1 r), rad2deg (idx2 r)).
Definition rad2deg_rows (a : list vec3) : list vec3 := rad2deg_row <$> a.

(** [np.dot] of two 3-vectors and [np.linalg.norm] of a 2-vector. *)
Definition np_dot (a b : vec3) : F :=
  idx0 a * idx0 b + idx1 a * idx1 b + idx2 a * idx2 b.
Definition np_norm2 (x y : F) : F := np_sqrt (x * x + y * y).

(** Euclidean length of a 3-vector. *)
Definition np_norm3 (v : vec3) : F :=
  np_sqrt (idx0 v * idx0 v + idx1 v * idx1 v + idx2 v * idx2 v).

(** *** [Fiber_cylinder] *)

Record Fiber_cylinder : Type := {
  diffusion : option F;   (* [None] or a float *)
  core_r : F;
  clad_r : F;
  core_n : F;
  clad_n : F;
  z_max : F
}.

(** [Fiber_cylinder.find_normal]:
    [-1 * np.array([x, y, 0]) / np.sqrt(x**2 + y**2)]. *)
Definition find_normal (intersection_point : vec3) : vec3 :=
  let x := idx0 intersection_point in
  let y := idx1 intersection_point in
  let d := np_sqrt (pow2 x + pow2 y) in
  ((of_Z (-1) * x) / d, (of_Z (-1) * y) / d, (of_Z (-1) * of_Z 0) / d).

(** Truth value of [fiber.diffusion] in [if fiber.diffusion:]: [None] and
    zero are false. *)
Definition diffusion_on (fiber : Fiber_cylinder) : option F :=
  match diffusion fiber with
  | None => None
  | Some d => if d == of_Z 0 then None else Some d
  end.

(** *** [Ray_cylinder] *)

Record Ray_cylinder : Type := {
  azimut : F;
  latitude : F;
  startpoint : vec3;
  vector : vec3
}.

Definition direction (azimut latitude : F) : vec3 :=
  (np_sin latitude * np_cos azimut,
   np_sin latitude * np_sin azimut,
   np_cos latitude).

(** [__init__] and [set_values] have the same body. *)
Definition set_values (azimut latitude : F) (startpoint : vec3)
  : Ray_cylinder :=
  {| azimut := azimut; latitude := latitude; startpoint := startpoint;
     vector := direction azimut latitude |}.

Definition calculate_angles_from_vector (vector : vec3) : F * F :=
  let latitude := np_arccos (idx2 vector) in
  if latitude == of_Z 0 then (of_Z 0, of_Z 0)
  else
    let cos := idx0 vector / np_norm2 (idx0 vector) (idx1 vector) in
    let sin := idx1 vector / np_norm2 (idx0 vector) (idx1 vector) in
    let azimut := if sin >? of_Z 0 then np_arccos cos
                  else - np_arccos cos in
    (azimut, latitude).

(** The common factor [-gamma + np.sqrt(gamma**2 - x0**2 - y0**2 + R**2)]
    of the three coordinates in [calculate_intersection]. *)
Definition transverse_root (x0 y0 phi R : F) : F :=
  let gamma := np_cos phi * x0 + np_sin phi * y0 in
  - gamma + np_sqrt (pow2 gamma - pow2 x0 - pow2 y0 + pow2 R).

Definition calculate_intersection (self : Ray_cylinder) (core_radius : F)
  : vec3 :=
  if latitude self == of_Z 0
  then (idx0 (startpoint self), idx1 (startpoint self), of_Z (-1))
  else
    let x0 := idx0 (startpoint self) in
    let y0 := idx1 (startpoint self) in
    let z0 := idx2 (startpoint self) in
    let phi := azimut self in
    let alpha := latitude self in
    let R := core_radius in
    let x := x0 + np_cos phi * transverse_root x0 y0 phi R in
    let y := y0 + np_sin phi * transverse_root x0 y0 phi R in
    let z := z0 + np_cos alpha / np_sin alpha
                  * transverse_root x0 y0 phi R in
    (x, y, z).

(** The vector [-2 * proection + self.vector] that [calculate_reflection]
    builds before it converts it to angles. *)
Definition reflected_vector (normal vector : vec3) : vec3 :=
  let angle := np_dot normal vector in
  let proection : vec3 :=
    (idx0 normal * angle, idx1 normal * angle, idx2 normal * angle) in
  (of_Z (-2) * idx0 proection + idx0 vector,
   of_Z (-2) * idx1 proection + idx1 vector,
   of_Z (-2) * idx2 proection + idx2 vector).

(** Returns (azimut, latitude, angle). *)
Definition calculate_reflection (self : Ray_cylinder) (point normal : vec3)
  : F * F * F :=
  let angle := np_dot normal (vector self) in
  let '(azimut, latitude) :=
    calculate_angles_from_vector (reflected_vector normal (vector self)) in
  (azimut, latitude, angle).

(** [np.zeros((n, 3))] *)
Definition np_zeros (n : Z) : flow F (list vec3) :=
  if (n <? 0)%Z then Raised ValueError
  else Normal (replicate (Z.to_nat n) (of_Z 0, of_Z 0, of_Z 0)).

(** *** [calculate_trajectory]

    The local variables that the loop reads and writes, the ray object
    itself ([self], updated in place by [set_values]) and the number of
    values drawn so far from [np.random.random]. *)
Record loop_state : Type := {
  self : Ray_cylinder;
  reflection_angle : F;
  Dots : list vec3;
  Angles : list vec3;
  draws : nat
}.

(** [intersection_point - self.vector / self.vector[2]
      * (intersection_point[2] - z_max)] *)
Definition clip_to_z_max (intersection_point vector : vec3) (z_max : F)
  : vec3 :=
  let over := idx2 intersection_point - z_max in
  (idx0 intersection_point - idx0 vector / idx2 vector * over,
   idx1 intersection_point - idx1 vector / idx2 vector * over,
   idx2 intersection_point - idx2 vector / idx2 vector * over).

Section Trajectory.
(** [random k] is the value of the [k]-th call of [np.random.random]. *)
Variable random : nat -> F.
Variable fiber : Fiber_cylinder.
Variable angle_elimination : bool.

(** [fiber.clad_n / fiber.core_n].  The attributes of the fibre are
    Python floats (its docstring and its defaults say so), and [/] on
    Python floats raises when the divisor is zero; numpy's own division,
    used everywhere else, does not raise. *)
Definition index_ratio : flow F F :=
  if core_n fiber == of_Z 0 then Raised ZeroDivisionError
  else Normal (clad_n fiber / core_n fiber).

(** The value of the local variable [termination_angle] once it has
    been assigned. *)
Definition termination_angle : F :=
  np_arcsin (clad_n fiber / core_n fiber).

(** One iteration of [for i in range(1, max_reflection)].  The [output]
    flag only prints and is left out. *)
Definition loop_body (i : Z) (st : loop_state) : flow F loop_state :=
  let intersection_point :=
    calculate_intersection (self st) (core_r fiber) in
  if idx2 intersection_point >? z_max fiber then
    let intersection_final :=
      clip_to_z_max intersection_point (vector (self st)) (z_max fiber) in
    Dots' ← setitem (Dots st) i intersection_final;
    Angles' ← setitem (Angles st) i
      (azimut (self st), latitude (self st),
       np_abs (reflection_angle st));
    Returned (Dots', rad2deg_rows Angles', (i + 1)%Z, "z_max"%string)
  else
    let normal := find_normal intersection_point in
    let '(azimut, latitude, reflection_angle) :=
      calculate_reflection (self st) intersection_point normal in
    let '(azimut, latitude, draws') :=
      match diffusion_on fiber with
      | Some d =>
          (azimut + (random (draws st) - lit_half) * of_Z 2 * d,
           latitude + (random (S (draws st)) - lit_half) * of_Z 2 * d,
           S (S (draws st)))
      | None => (azimut, latitude, draws st)
      end in
    Dots' ← setitem (Dots st) i intersection_point;
    Angles' ← setitem (Angles st) i
      (azimut, latitude, np_abs reflection_angle);
    if angle_elimination
       && (np_pi / of_Z 2 - np_abs reflection_angle <? termination_angle)
    then Returned (Dots', rad2deg_rows Angles', (i + 1)%Z,
                   "reflection_angle"%string)
    else Normal {| self := set_values azimut latitude intersection_point;
                   reflection_angle := reflection_angle;
                   Dots := Dots'; Angles := Angles'; draws := draws' |}.

(** The statements before the loop.  The first one,
    [termination_angle = np.arcsin(fiber.clad_n / fiber.core_n)], either
    raises or makes [termination_angle] the value defined above. *)
Definition loop_init (ray : Ray_cylinder) (max_reflection : Z)
  : flow F loop_state :=
  _ ← index_ratio;
  Dots ← np_zeros max_reflection;
  let reflection_angle := latitude ray in
  Angles ← np_zeros max_reflection;
  Dots ← setitem Dots 0 (startpoint ray);
  Angles ← setitem Angles 0 (azimut ray, latitude ray, of_Z 0);
  Normal {| self := ray; reflection_angle := reflection_angle;
            Dots := Dots; Angles := Angles; draws := 0 |}.

(** The state in which iteration [i] starts, when the loop gets there. *)
Definition state_before (ray : Ray_cylinder) (max_reflection i : Z)
  : flow F loop_state :=
  st ← loop_init ray max_reflection;
  for_loop loop_body (py_range 1 i) st.

Definition calculate_trajectory (ray : Ray_cylinder) (max_reflection : Z)
  : exn + result F :=
  match state_before ray max_reflection max_reflection with
  | Normal st =>
      inr (Dots st, rad2deg_rows (Angles st), max_reflection,
           "max_reflections"%string)
  | Returned r => inr r
  | Raised e => inl e
  end.
End Trajectory.

(** Invariant of the loop: both arrays keep their [max_reflection] rows,
    and row 0 of [Dots] keeps the start point. *)
Definition arrays_ok (ray : Ray_cylinder) (max_reflection : Z)
  (st : loop_state) : Prop :=
  length (Dots st) = Z.to_nat max_reflection
  /\ length (Angles st) = Z.to_nat max_reflection
  /\ Dots st !! 0%nat = Some (startpoint ray).

End Generic.

Arguments vec3 F : clear implicits.
Arguments Fiber_cylinder F : clear implicits.
Arguments Ray_cylinder F : clear implicits.
Arguments loop_state F : clear implicits.

(** ** Idealised numpy floats

    Exact real numbers, and one more value for the results that numpy
    reports as [nan]: the square root of a negative number, [arccos] and
    [arcsin] outside [-1, 1], a division by zero, and every operation on
    [nan].  A comparison with [nan] is false.  Rounding is not modelled, and
    neither are infinities: numpy gives [inf] or [-inf] for a non-zero number
    divided by zero, the model gives [NaN].  No result below depends on the
    value of such a quotient: where an input is fixed or constrained, every
    divisor that matters is shown to be non-zero.

    Two tests of the code depend on the last bits of a binary64 result,
    which exact real numbers do not have.  On line 95, [latitude == 0] is
    true for every reflected vector whose axial component has been rounded
    to 1.0, that is for every zenith angle below about 1.5e-8; on line
    289, [np.pi / 2 - abs(reflection_angle)] is [np.pi / 2] itself for an
    incidence value below about 1.1e-16.  What is said about a run for
    every arithmetic does not depend on this.  The statements on [npfloat]
    that lead through one of these tests are restricted to zenith angles
    and incidence values of magnitude at least 10^-3, where both
    arithmetics take the same branch and their results differ by rounding
    only. *)

Inductive npfloat : Type :=
| Fin (r : R)
| NaN.

Module NpFloat.
Definition lift1 (f : R -> R) (x : npfloat) : npfloat :=
  match x with Fin a => Fin (f a) | NaN => NaN end.

Definition lift2 (f : R -> R -> R) (x y : npfloat) : npfloat :=
  match x, y with Fin a, Fin b => Fin (f a b) | _, _ => NaN end.

Definition div (x y : npfloat) : npfloat :=
  match x, y with
  | Fin a, Fin b => if Req_dec_T b 0 then NaN else Fin (a / b)
  | _, _ => NaN
  end.

Definition sqrt (x : npfloat) : npfloat :=
  match x with
  | Fin a => if Rlt_dec a 0 then NaN else Fin (R_sqrt.sqrt a)
  | NaN => NaN
  end.

(** Functions defined on [-1, 1] only. *)
Definition on_unit_interval (f : R -> R) (x : npfloat) : npfloat :=
  match x with
  | Fin a => if Rle_dec (-1) a
             then if Rle_dec a 1 then Fin (f a) else NaN
             else NaN
  | NaN => NaN
  end.

Definition eqb (x y : npfloat) : bool :=
  match x, y with
  | Fin a, Fin b => if Req_dec_T a b then true else false
  | _, _ => false
  end.

Definition ltb (x y : npfloat) : bool :=
  match x, y with
  | Fin a, Fin b => if Rlt_dec a b then true else false
  | _, _ => false
  end.
End NpFloat.

#[global] Instance npfloat_numeric : Numeric npfloat := {|
  of_Z z := Fin (IZR z);
  np_add := NpFloat.lift2 Rplus;
  np_sub := NpFloat.lift2 Rminus;
  np_mul := NpFloat.lift2 Rmult;
  np_div := NpFloat.div;
  np_neg := NpFloat.lift1 Ropp;
  np_abs := NpFloat.lift1 Rabs;
  np_sqrt := NpFloat.sqrt;
  np_sin := NpFloat.lift1 sin;
  np_cos := NpFloat.lift1 cos;
  np_arccos := NpFloat.on_unit_interval acos;
  np_arcsin := NpFloat.on_unit_interval asin;
  np_pi := Fin PI;
  np_eqb := NpFloat.eqb;
  np_ltb := NpFloat.ltb
|}.

(** *** Notions used in the statements *)

(** The quadratic [t^2 + 2 gamma t + (x0^2 + y0^2 - R^2)], whose roots are
    the parameters at which the transverse line
    [(x0 + t cos phi, y0 + t sin phi)] meets the circle of radius [R]. *)
Definition transverse_quadratic (x0 y0 phi rad t : R) : R :=
  (t * t + 2 * (cos phi * x0 + sin phi * y0) * t
   + (x0 * x0 + y0 * y0 - rad * rad))%R.

(** Concrete inputs used in the examples below: a fibre of core radius 1
    without diffusion, a constant random source, a ray along the axis
    direction that starts off the axis, an oblique ray from the origin and
    a ray that starts outside the core. *)
Definition sample_fiber (core_n clad_n z_max : R) : Fiber_cylinder npfloat :=
  {| diffusion := None; core_r := Fin 1; clad_r := Fin (6 / 5);
     core_n := Fin core_n; clad_n := Fin clad_n; z_max := Fin z_max |}.

Definition sample_random : nat -> npfloat := fun _ => Fin (1 / 2).

Definition axial_ray : Ray_cylinder npfloat :=
  set_values (Fin 0) (Fin 0) (Fin (1 / 2), Fin 0, Fin 0).

Definition oblique_ray : Ray_cylinder npfloat :=
  set_values (Fin 0) (Fin (PI / 4)) (Fin 0, Fin 0, Fin 0).

Definition outside_ray : Ray_cylinder npfloat :=
  set_values (Fin 0) (Fin (PI / 4)) (Fin 0, Fin 2, Fin 0).

Definition nan_point : vec3 npfloat := (NaN, NaN, NaN).

(** The state in which the first iteration starts for [oblique_ray] and
    five rows. *)
Definition oblique_start : loop_state npfloat :=
  {| self := oblique_ray; reflection_angle := Fin (PI / 4);
     Dots := <[0%nat := (Fin 0, Fin 0, Fin 0)]>
               (replicate 5 (Fin 0, Fin 0, Fin 0));
     Angles := <[0%nat := (Fin 0, Fin (PI / 4), Fin 0)]>
                 (replicate 5 (Fin 0, Fin 0, Fin 0));
     draws := 0 |}.

(** ** The other methods of [ray_cylinder.py] and [fibers.py] *)

Section OtherMethods.
Context {F : Type} `{Numeric F}.
Local Open Scope np_scope.

(** [np.deg2rad] *)
Definition deg2rad (x : F) : F := x * (np_pi / of_Z 180).

(** *** [Fiber_cylinder]: setters and getters *)

Definition set_geometry (self : Fiber_cylinder F) (core_r clad_r z : F)
  : Fiber_cylinder F :=
  {| diffusion := diffusion self; core_r := core_r; clad_r := clad_r;
     core_n := core_n self; clad_n := clad_n self; z_max := z |}.

Definition set_refr (self : Fiber_cylinder F) (core_n clad_n : F)
  : Fiber_cylinder F :=
  {| diffusion := diffusion self; core_r := core_r self;
     clad_r := clad_r self; core_n := core_n; clad_n := clad_n;
     z_max := z_max self |}.

Definition radius (self : Fiber_cylinder F) : F * F :=
  (core_r self, clad_r self).

Definition refr (self : Fiber_cylinder F) : F * F :=
  (core_n self, clad_n self).

(** *** [Ray_cylinder]: start point and angles

    The generators take the random source and the number of values drawn
    so far; every method returns its Python result and the updated ray. *)

(** [self.startpoint = p]: the direction vector is not touched. *)
Definition with_startpoint (self : Ray_cylinder F) (p : vec3 F)
  : Ray_cylinder F :=
  {| azimut := azimut self; latitude := latitude self; startpoint := p;
     vector := vector self |}.

Definition generate_startpoint (random : nat -> F) (drawn : nat)
  (self : Ray_cylinder F) (radius : F)
  : vec3 F * Ray_cylinder F * nat :=
  let phi := random drawn * np_pi in
  let r := random (S drawn) * radius in
  let coords := (r * np_cos phi, r * np_sin phi) in
  ((coords.1, coords.2, of_Z 0),
   with_startpoint self (coords.1, coords.2, of_Z 0),
   S (S drawn)).

Definition set_startpoint (self : Ray_cylinder F) (x y z : F)
  : vec3 F * Ray_cylinder F :=
  ((x, y, z), with_startpoint self (x, y, z)).

(** Returns [[latitude, azimut]], in this order. *)
Definition set_angles (self : Ray_cylinder F) (azimut latitude : F)
  : F * F * Ray_cylinder F :=
  ((latitude, azimut),
   {| azimut := azimut; latitude := latitude;
      startpoint := startpoint self;
      vector := direction azimut latitude |}).

Definition generate_angles (random : nat -> F) (drawn : nat)
  (self : Ray_cylinder F) (max_latitude : F)
  : F * F * Ray_cylinder F * nat :=
  let latitude := deg2rad (random drawn * max_latitude) in
  let azimut := deg2rad (random (S drawn) * of_Z 360) in
  ((latitude, azimut),
   {| azimut := azimut; latitude := latitude;
      startpoint := startpoint self;
      vector := direction azimut latitude |},
   S (S drawn)).

End OtherMethods.

(** *** [Fiber_cone] *)

Module Fiber_cone.
Section Cone.
Context {F : Type} `{Numeric F}.
Local Open Scope np_scope.

Record t : Type := {
  diffusion : option F;
  top_r : F;
  base_r : F;
  core_n : F;
  clad_n : F;
  z_max : F;
  angle : F;
  c : F
}.

(** [(base_r - top_r) / z_max]: a quotient of Python floats, which raises
    when the divisor is zero. *)
Definition taper_ratio (z_max base_r top_r : F) : exn + F :=
  if z_max == of_Z 0 then inl ZeroDivisionError
  else inr ((base_r - top_r) / z_max).

(** [__init__] *)
Definition init (z_max base_r top_r core_n clad_n : F)
  (diffusion : option F) : exn + t :=
  match taper_ratio z_max base_r top_r with
  | inl e => inl e
  | inr q =>
      let angle := np_arcsin q in
      inr {| diffusion := diffusion; z_max := z_max; angle := angle;
             base_r := base_r; top_r := top_r;
             c := np_sin angle / np_cos angle;
             core_n := core_n; clad_n := clad_n |}
  end.

(** [set_geometry] assigns [base_r] and [top_r] before it computes the
    angle: the object it leaves behind is returned together with the
    exception, if one was raised. *)
Definition set_geometry (self : t) (z_max' base_r' top_r' : F)
  : t * option exn :=
  let self1 :=
    {| diffusion := diffusion self; z_max := z_max self;
       angle := angle self; base_r := base_r'; top_r := top_r';
       c := c self; core_n := core_n self; clad_n := clad_n self |} in
  match taper_ratio z_max' base_r' top_r' with
  | inl e => (self1, Some e)
  | inr q =>
      let angle' := np_arcsin q in
      ({| diffusion := diffusion self; z_max := z_max'; angle := angle';
          base_r := base_r'; top_r := top_r';
          c := np_sin angle' / np_cos angle';
          core_n := core_n self; clad_n := clad_n self |}, None)
  end.

Definition set_refr (self : t) (core_n' clad_n' : F) : t :=
  {| diffusion := diffusion self; z_max := z_max self;
     angle := angle self; base_r := base_r self; top_r := top_r self;
     c := c self; core_n := core_n'; clad_n := clad_n' |}.

Definition refr (self : t) : F * F := (core_n self, clad_n self).

(** [z = -self.c**2*(intersection_point[2] - self.base_r / self.c)] and
    [-1 * np.array([x, y, z])/np.sqrt(x**2 + y**2 + z**2)]. *)
Definition find_normal (self : t) (intersection_point : vec3 F) : vec3 F :=
  let x := idx0 intersection_point in
  let y := idx1 intersection_point in
  let z := - pow2 (c self)
           * (idx2 intersection_point - base_r self / c self) in
  let d := np_sqrt (pow2 x + pow2 y + pow2 z) in
  ((of_Z (-1) * x) / d, (of_Z (-1) * y) / d, (of_Z (-1) * z) / d).

End Cone.
Arguments t F : clear implicits.
End Fiber_cone.

(** ** [visual_cylinder.py]: the mesh of a cylinder *)

Definition slice_triangles (z n i j k l : Z) : list (Z * Z * Z) :=
  [(z, j, i); (i, j, l); (l, j, k); (k, n, l)].

(** The loop that builds [triangles] in [cylinder_mesh]. *)
Definition mesh_triangles (n_slices : Z) : list (Z * Z * Z) :=
  let n := (n_slices * 2 + 1)%Z in
  foldl (fun triangles s =>
           let j := if (s <=? n_slices - 1)%Z then (s + 1)%Z else 1%Z in
           let k := if (s <=? n_slices - 1)%Z then (j + n_slices)%Z
                    else (n_slices + 1)%Z in
           let l := (s + n_slices)%Z in
           triangles ++ slice_triangles 0 n s j k l)
        [] (py_range 1 (n_slices + 1)).

(** [a[:-1]] *)
Definition but_last {A} (a : list A) : list A := take (length a - 1) a.

Section Mesh.
Context {F : Type} `{Numeric F}.
Local Open Scope np_scope.

(** [np.linspace(start, stop, num)], as numpy computes it: [num] samples
    [k * step + start] with the last one replaced by [stop]. *)
Definition np_linspace (start stop : F) (num : Z) : exn + list F :=
  if (num <? 0)%Z then inl ValueError
  else
    let div := (num - 1)%Z in
    let delta := stop - start in
    let y := (fun k => of_Z k) <$> py_range 0 num in
    let y :=
      if (0 <? div)%Z then
        let step := delta / of_Z div in
        if step == of_Z 0
        then (fun v => v / of_Z div * delta) <$> y
        else (fun v => v * step) <$> y
      else (fun v => v * delta) <$> y in
    let y := (fun v => v + start) <$> y in
    inr (if (1 <? num)%Z then but_last y ++ [stop] else y).

(** Returns (vertices, triangles, x, y, z1, z2). *)
Definition cylinder_mesh (r xs ys zs h : F) (n_slices : Z)
  : exn + (list (vec3 F) * list (Z * Z * Z)
           * list F * list F * list F * list F) :=
  match np_linspace (of_Z 0) (of_Z 2 * np_pi) (n_slices + 1) with
  | inl e => inl e
  | inr theta =>
      let x := (fun t => xs + r * np_cos t) <$> theta in
      let y := (fun t => ys + r * np_sin t) <$> theta in
      let z1 := (fun _ => zs + of_Z 0 * of_Z 1) <$> x in
      let z2 := (fun _ => (zs + h) * of_Z 1) <$> x in
      let triangles := mesh_triangles n_slices in
      let x_coords := [xs] ++ but_last x ++ but_last x ++ [xs] in
      let y_coords := [ys] ++ but_last y ++ but_last y ++ [ys] in
      let z_coords := [zs] ++ but_last z1 ++ but_last z2 ++ [zs + h] in
      let vertices :=
        zip_with (fun xy z => (xy.1, xy.2, z))
                 (zip x_coords y_coords) z_coords in
      inr (vertices, triangles, x, y, z1, z2)
  end.
End Mesh.

(** ** A ray in an ideal straight fibre

    The quantities that describe a launch: core radius, zenith and azimuth
    angles and the start point, all real numbers. *)

Record launch : Type := {
  l_rad : R;
  l_lat : R;
  l_az : R;
  l_x : R;
  l_y : R;
  l_z : R
}.


(** The ray is oblique and starts strictly inside the core. *)
Definition launch_ok (l : launch) : Prop :=
  (0 < l_lat l < PI / 2
   /\ l_x l * l_x l + l_y l * l_y l < l_rad l * l_rad l)%R.

(** The discriminant under the square root of [calculate_intersection] and
    the value of its common factor, on real numbers. *)
Definition discriminant (rad az x y : R) : R :=
  ((cos az * x + sin az * y) * (cos az * x + sin az * y)
   - x * x - y * y + rad * rad)%R.

Definition chord (rad az x y : R) : R :=
  (- (cos az * x + sin az * y) + sqrt (discriminant rad az x y))%R.

Definition launch_discriminant (l : launch) : R :=
  discriminant (l_rad l) (l_az l) (l_x l) (l_y l).

(** Height of the first reflection, distance in height between two
    reflections, and the value [np.dot(normal, self.vector)] at a
    reflection. *)
Definition first_height (l : launch) : R :=
  (l_z l + cos (l_lat l) / sin (l_lat l)
           * chord (l_rad l) (l_az l) (l_x l) (l_y l))%R.

Definition pitch (l : launch) : R :=
  (cos (l_lat l) / sin (l_lat l)
   * (sqrt (launch_discriminant l) + sqrt (launch_discriminant l)))%R.

Definition incidence (l : launch) : R :=
  (- (sin (l_lat l) * sqrt (launch_discriminant l))
   / sqrt (l_rad l * l_rad l))%R.




(** The ray meets the wall at an incidence value of magnitude at least
    10^-3: it is neither nearly parallel to the axis nor nearly tangent to
    the wall.  Outside this range the outcome of the code depends on the
    last bits of binary64 results, which the exact operations on [npfloat]
    do not have: [np.cos] of a zenith angle below about 1.5e-8 is 1.0, so
    that line 95 resets both angles and the ray becomes axial, and
    [np.pi / 2 - abs(a)] is [np.pi / 2] for [|a|] below about 1.1e-16, so
    that the test of line 289 fails. *)
Definition launch_robust (l : launch) : Prop :=
  (1 / 1000 <= Rabs (incidence l))%R.




(** *** Evaluation of the operations on finite values *)

Section Evaluation.
Local Open Scope R_scope.
Implicit Types a b : R.

Lemma add_fin a b : (Fin a + Fin b)%np = Fin (a + b).
Proof. reflexivity. Qed.

Lemma sub_fin a b : (Fin a - Fin b)%np = Fin (a - b).
Proof. reflexivity. Qed.

Lemma mul_fin a b : (Fin a * Fin b)%np = Fin (a * b).
Proof. reflexivity. Qed.

Lemma neg_fin a : (- Fin a)%np = Fin (- a).
Proof. reflexivity. Qed.

Lemma abs_fin a : np_abs (Fin a) = Fin (Rabs a).
Proof. reflexivity. Qed.

Lemma sin_fin a : np_sin (Fin a) = Fin (sin a).
Proof. reflexivity. Qed.

Lemma cos_fin a : np_cos (Fin a) = Fin (cos a).
Proof. reflexivity. Qed.

Lemma pow2_fin a : pow2 (Fin a) = Fin (a * a).
Proof. reflexivity. Qed.

Lemma div_fin a b : b <> 0 -> (Fin a / Fin b)%np = Fin (a / b).
Proof.
  intros Hb. cbn. unfold NpFloat.div.
  destruct (Req_dec_T b 0); [contradiction | reflexivity].
Qed.

Lemma sqrt_fin a : 0 <= a -> np_sqrt (Fin a) = Fin (sqrt a).
Proof.
  intros Ha. cbn. unfold NpFloat.sqrt.
  destruct (Rlt_dec a 0); [lra | reflexivity].
Qed.

Lemma sqrt_negative a : a < 0 -> np_sqrt (Fin a) = NaN.
Proof.
  intros Ha. cbn. unfold NpFloat.sqrt.
  destruct (Rlt_dec a 0); [reflexivity | contradiction].
Qed.

Lemma arccos_fin a : -1 <= a <= 1 -> np_arccos (Fin a) = Fin (acos a).
Proof.
  intros [Hl Hu]. cbn. unfold NpFloat.on_unit_interval.
  destruct (Rle_dec (-1) a); [| contradiction].
  destruct (Rle_dec a 1); [reflexivity | contradiction].
Qed.

Lemma arcsin_fin a : -1 <= a <= 1 -> np_arcsin (Fin a) = Fin (asin a).
Proof.
  intros [Hl Hu]. cbn. unfold NpFloat.on_unit_interval.
  destruct (Rle_dec (-1) a); [| contradiction].
  destruct (Rle_dec a 1); [reflexivity | contradiction].
Qed.

Lemma eqb_fin_true a b : a = b -> (Fin a == Fin b)%np = true.
Proof.
  intros Hab. cbn. destruct (Req_dec_T a b); [reflexivity | contradiction].
Qed.

Lemma eqb_fin_false a b : a <> b -> (Fin a == Fin b)%np = false.
Proof.
  intros Hab. cbn. destruct (Req_dec_T a b); [contradiction | reflexivity].
Qed.

Lemma ltb_fin_true a b : a < b -> (Fin a <? Fin b)%np = true.
Proof.
  intros Hab. cbn. destruct (Rlt_dec a b); [reflexivity | contradiction].
Qed.

Lemma ltb_fin_false a b : b <= a -> (Fin a <? Fin b)%np = false.
Proof.
  intros Hab. cbn. destruct (Rlt_dec a b); [lra | reflexivity].
Qed.

Lemma ltb_true_inv (x y : npfloat) :
  (x <? y)%np = true -> exists a b, x = Fin a /\ y = Fin b /\ a < b.
Proof.
  destruct x as [a|], y as [b|]; cbn; try discriminate.
  destruct (Rlt_dec a b); [eauto | discriminate].
Qed.
End Evaluation.

(** ** [calculate_intersection] *)

Section Intersection.
Local Open Scope R_scope.

Lemma discriminant_pos (x0 y0 phi rad : R) :
  x0 * x0 + y0 * y0 < rad * rad ->
  let gamma := cos phi * x0 + sin phi * y0 in
  0 < gamma * gamma - x0 * x0 - y0 * y0 + rad * rad.
Proof. intros Hin gamma. nra. Qed.

(** On finite arguments with a non-negative discriminant the common factor
    is the real number given by the same formula. *)
Lemma transverse_root_fin (x0 y0 phi rad : R) :
  let gamma := cos phi * x0 + sin phi * y0 in
  0 <= gamma * gamma - x0 * x0 - y0 * y0 + rad * rad ->
  transverse_root (Fin x0) (Fin y0) (Fin phi) (Fin rad)
  = Fin (- gamma + sqrt (gamma * gamma - x0 * x0 - y0 * y0 + rad * rad)).
Proof.
  intros gamma Hd. unfold transverse_root.
  rewrite cos_fin, sin_fin, !mul_fin, add_fin, !pow2_fin, !sub_fin, add_fin.
  rewrite sqrt_fin by exact Hd.
  rewrite neg_fin, add_fin. reflexivity.
Qed.

Lemma transverse_root_nan (x0 y0 phi rad : R) :
  let gamma := cos phi * x0 + sin phi * y0 in
  gamma * gamma - x0 * x0 - y0 * y0 + rad * rad < 0 ->
  transverse_root (Fin x0) (Fin y0) (Fin phi) (Fin rad) = NaN.
Proof.
  intros gamma Hd. unfold transverse_root.
  rewrite cos_fin, sin_fin, !mul_fin, add_fin, !pow2_fin, !sub_fin, add_fin.
  rewrite sqrt_negative by exact Hd. reflexivity.
Qed.

Lemma latitude_test_false (lat : R) :
  lat <> 0 -> (Fin lat == of_Z 0)%np = false.
Proof. intros Hl. apply eqb_fin_false. exact Hl. Qed.

(** The transverse part of the computed point lies on the circle. *)
Lemma exit_point_on_circle (az x0 y0 rad : R) :
  x0 * x0 + y0 * y0 < rad * rad ->
  let gamma := cos az * x0 + sin az * y0 in
  let t := - gamma + sqrt (gamma * gamma - x0 * x0 - y0 * y0 + rad * rad) in
  (x0 + cos az * t) * (x0 + cos az * t)
  + (y0 + sin az * t) * (y0 + sin az * t) = rad * rad.
Proof.
  intros Hin gamma t.
  pose proof (discriminant_pos x0 y0 az rad Hin) as Hd. cbn zeta in Hd.
  fold gamma in Hd.
  set (D := gamma * gamma - x0 * x0 - y0 * y0 + rad * rad) in *.
  assert (Hss : sqrt D * sqrt D = D) by (apply sqrt_sqrt; lra).
  assert (Hcs : cos az * cos az + sin az * sin az = 1).
  { pose proof (sin2_cos2 az) as Hsc. unfold Rsqr in Hsc. lra. }
  replace ((x0 + cos az * t) * (x0 + cos az * t)
           + (y0 + sin az * t) * (y0 + sin az * t))
    with (x0 * x0 + y0 * y0 + 2 * gamma * t
          + (cos az * cos az + sin az * sin az) * (t * t))
    by (unfold gamma; ring).
  rewrite Hcs. unfold t. unfold D in Hss |- *. nra.
Qed.

(** The general branch of [calculate_intersection] on finite data. *)
Lemma calculate_intersection_fin
  (az lat x0 y0 z0 rad : R) (v : vec3 npfloat) :
  lat <> 0 -> sin lat <> 0 ->
  let gamma := cos az * x0 + sin az * y0 in
  0 <= gamma * gamma - x0 * x0 - y0 * y0 + rad * rad ->
  let t := - gamma + sqrt (gamma * gamma - x0 * x0 - y0 * y0 + rad * rad) in
  calculate_intersection
    {| azimut := Fin az; latitude := Fin lat;
       startpoint := (Fin x0, Fin y0, Fin z0); vector := v |} (Fin rad)
  = (Fin (x0 + cos az * t), Fin (y0 + sin az * t),
     Fin (z0 + cos lat / sin lat * t)).
Proof.
  intros Hlat Hsin gamma Hd t.
  unfold calculate_intersection. cbn [latitude azimut startpoint].
  rewrite latitude_test_false by exact Hlat.
  unfold idx0, idx1, idx2. cbn [fst snd].
  rewrite transverse_root_fin by exact Hd.
  rewrite !cos_fin, !sin_fin, (div_fin _ _ Hsin).
  rewrite !mul_fin, !add_fin. reflexivity.
Qed.

Lemma calculate_intersection_nan
  (az lat x0 y0 z0 rad : R) (v : vec3 npfloat) :
  lat <> 0 ->
  let gamma := cos az * x0 + sin az * y0 in
  gamma * gamma - x0 * x0 - y0 * y0 + rad * rad < 0 ->
  calculate_intersection
    {| azimut := Fin az; latitude := Fin lat;
       startpoint := (Fin x0, Fin y0, Fin z0); vector := v |} (Fin rad)
  = nan_point.
Proof.
  intros Hlat gamma Hd.
  unfold calculate_intersection. cbn [latitude azimut startpoint].
  rewrite latitude_test_false by exact Hlat.
  unfold idx0, idx1, idx2. cbn [fst snd].
  rewrite transverse_root_nan by exact Hd.
  rewrite !cos_fin, !sin_fin.
  destruct (Fin (cos lat) / Fin (sin lat))%np; reflexivity.
Qed.

(** C1. A ray with zenith angle in (0, pi/2) that starts strictly inside
    the circle of radius [rad]: [calculate_intersection] returns the point
    [(x, y, z)] built from [t], the larger root of the transverse
    quadratic; [t] is positive, [x^2 + y^2 = rad^2], [z] is [z0] plus
    [t] times the cotangent of the zenith angle, and the point is the
    start point moved by the positive amount [t / sin lat] along the
    direction [(sin lat cos az, sin lat sin az, cos lat)]. *)
Theorem calculate_intersection_exit_point
  (az lat x0 y0 z0 rad : R) (v : vec3 npfloat) :
  0 < lat < PI / 2 ->
  x0 * x0 + y0 * y0 < rad * rad ->
  let gamma := cos az * x0 + sin az * y0 in
  let t := - gamma + sqrt (gamma * gamma - x0 * x0 - y0 * y0 + rad * rad) in
  let x := x0 + cos az * t in
  let y := y0 + sin az * t in
  let z := z0 + cos lat / sin lat * t in
  let s := t / sin lat in
  calculate_intersection
    {| azimut := Fin az; latitude := Fin lat;
       startpoint := (Fin x0, Fin y0, Fin z0); vector := v |} (Fin rad)
  = (Fin x, Fin y, Fin z)
  /\ x * x + y * y = rad * rad
  /\ transverse_quadratic x0 y0 az rad t = 0
  /\ (forall t', transverse_quadratic x0 y0 az rad t' = 0 -> t' <= t)
  /\ 0 < t
  /\ 0 < s
  /\ x = x0 + s * (sin lat * cos az)
  /\ y = y0 + s * (sin lat * sin az)
  /\ z = z0 + s * cos lat.
Proof.
  intros Hlat Hin gamma t x y z s.
  pose proof (discriminant_pos x0 y0 az rad Hin) as Hd. cbn zeta in Hd.
  fold gamma in Hd.
  set (D := gamma * gamma - x0 * x0 - y0 * y0 + rad * rad) in *.
  assert (Hsin : 0 < sin lat) by (apply sin_gt_0; lra).
  assert (Hs0 : 0 < sqrt D) by (apply sqrt_lt_R0; exact Hd).
  assert (Hss : sqrt D * sqrt D = D) by (apply sqrt_sqrt; lra).
  assert (Hg : gamma * gamma < D) by (unfold D; nra).
  assert (Ht : 0 < t) by (unfold t; fold D; nra).
  assert (Hq : forall u, transverse_quadratic x0 y0 az rad u
                         = (u + gamma) * (u + gamma) - D).
  { intros u. unfold transverse_quadratic, D, gamma. ring. }
  repeat split.
  - apply calculate_intersection_fin; [lra | lra |]. fold gamma D. lra.
  - exact (exit_point_on_circle az x0 y0 rad Hin).
  - rewrite Hq. unfold t. fold D. nra.
  - intros t' Ht'. rewrite Hq in Ht'. unfold t. fold D. nra.
  - exact Ht.
  - unfold s. apply Rdiv_lt_0_compat; assumption.
  - unfold x, s. field. lra.
  - unfold y, s. field. lra.
  - unfold z, s. field. lra.
Qed.
End Intersection.

Section IntersectionAxial.
Context {F : Type} `{Numeric F}.

(** C9. When the test [self.latitude == 0] succeeds, the result is the
    current x and y with z = -1, whatever the core radius is: the
    quadratic formula (and its square root) is not evaluated.  This holds
    for every implementation of the arithmetic. *)
Theorem calculate_intersection_axial
  (self : Ray_cylinder F) (core_radius : F) :
  (latitude self == of_Z 0)%np = true ->
  calculate_intersection self core_radius
  = (idx0 (startpoint self), idx1 (startpoint self), of_Z (-1)).
Proof.
  intros Hlat. unfold calculate_intersection. rewrite Hlat. reflexivity.
Qed.
End IntersectionAxial.

(** At zenith angle 0 the result is finite even where the discriminant is
    negative (start point (2, 0, 5), radius 1). *)
Lemma calculate_intersection_axial_witness :
  (latitude (set_values (Fin 1) (Fin 0) (Fin 2, Fin 0, Fin 5)) == of_Z 0)%np
  = true
  /\ calculate_intersection
       (set_values (Fin 1) (Fin 0) (Fin 2, Fin 0, Fin 5)) (Fin 1)
     = (Fin 2, Fin 0, Fin (-1)).
Proof.
  assert (Hlat : (latitude (set_values (Fin 1) (Fin 0) (Fin 2, Fin 0, Fin 5))
                  == of_Z 0)%np = true)
    by (apply eqb_fin_true; reflexivity).
  split; [exact Hlat |].
  exact (calculate_intersection_axial _ (Fin 1) Hlat).
Defined.

Lemma calculate_intersection_exit_point_witness :
  (0 < PI / 4 < PI / 2)%R
  /\ (0 * 0 + 0 * 0 < 1 * 1)%R
  /\ exists x y z : R,
       calculate_intersection
         (set_values (Fin 0) (Fin (PI / 4)) (Fin 0, Fin 0, Fin 0)) (Fin 1)
       = (Fin x, Fin y, Fin z)
       /\ (x * x + y * y = 1 * 1)%R.
Proof.
  assert (Hlat : (0 < PI / 4 < PI / 2)%R) by (pose proof PI_RGT_0; lra).
  assert (Hin : (0 * 0 + 0 * 0 < 1 * 1)%R) by lra.
  split; [exact Hlat |]. split; [exact Hin |].
  destruct (calculate_intersection_exit_point 0 (PI / 4) 0 0 0 1
              (direction (Fin 0) (Fin (PI / 4))) Hlat Hin)
    as (Heq & Hcircle & _).
  eexists _, _, _. split; [exact Heq | exact Hcircle].
Defined.

(** ** [calculate_reflection] *)

Section Reflection.
Local Open Scope R_scope.

Lemma np_norm3_fin (x y z : R) :
  np_norm3 (Fin x, Fin y, Fin z) = Fin (sqrt (x * x + y * y + z * z)).
Proof.
  unfold np_norm3, idx0, idx1, idx2. cbn [fst snd].
  rewrite !mul_fin, !add_fin. apply sqrt_fin. nra.
Qed.

Lemma reflected_vector_fin (nx ny nz vx vy vz : R) :
  let a := nx * vx + ny * vy + nz * vz in
  reflected_vector (Fin nx, Fin ny, Fin nz) (Fin vx, Fin vy, Fin vz)
  = (Fin (-2 * (nx * a) + vx), Fin (-2 * (ny * a) + vy),
     Fin (-2 * (nz * a) + vz)).
Proof. reflexivity. Qed.

(** C8. For a unit normal the vector [-2 * proection + self.vector] built
    by [calculate_reflection] has the length of the incident vector
    (which need not even be a unit vector). *)
Theorem reflected_vector_preserves_norm (nx ny nz vx vy vz : R) :
  np_norm3 (Fin nx, Fin ny, Fin nz) = Fin 1 ->
  np_norm3 (reflected_vector (Fin nx, Fin ny, Fin nz)
                             (Fin vx, Fin vy, Fin vz))
  = np_norm3 (Fin vx, Fin vy, Fin vz).
Proof.
  intros Hn. rewrite np_norm3_fin in Hn.
  assert (Hunit : nx * nx + ny * ny + nz * nz = 1).
  { injection Hn as Hn.
    rewrite <- (sqrt_sqrt (nx * nx + ny * ny + nz * nz)) by nra.
    rewrite Hn. ring. }
  rewrite reflected_vector_fin. cbn zeta. rewrite !np_norm3_fin.
  do 2 f_equal.
  set (a := nx * vx + ny * vy + nz * vz).
  transitivity (vx * vx + vy * vy + vz * vz
                + 4 * (a * a) * (nx * nx + ny * ny + nz * nz - 1)).
  - unfold a. ring.
  - rewrite Hunit. ring.
Qed.
End Reflection.

Lemma reflected_vector_preserves_norm_witness :
  np_norm3 (Fin 1, Fin 0, Fin 0) = Fin 1
  /\ np_norm3 (reflected_vector (Fin 1, Fin 0, Fin 0) (Fin 3, Fin 4, Fin 0))
     = np_norm3 (Fin 3, Fin 4, Fin 0).
Proof.
  assert (Hn : np_norm3 (Fin 1, Fin 0, Fin 0) = Fin 1).
  { rewrite np_norm3_fin. f_equal.
    replace (1 * 1 + 0 * 0 + 0 * 0)%R with 1%R by ring. apply sqrt_1. }
  split; [exact Hn |].
  exact (reflected_vector_preserves_norm 1 0 0 3 4 0 Hn).
Defined.

(** ** [calculate_angles_from_vector] *)

Section Angles.
Local Open Scope R_scope.

Lemma direction_fin (az lat : R) :
  direction (Fin az) (Fin lat)
  = (Fin (sin lat * cos az), Fin (sin lat * sin az), Fin (cos lat)).
Proof. reflexivity. Qed.

Lemma transverse_norm (az lat : R) :
  0 <= sin lat ->
  sqrt (sin lat * cos az * (sin lat * cos az)
        + sin lat * sin az * (sin lat * sin az)) = sin lat.
Proof.
  intros Hs.
  replace (sin lat * cos az * (sin lat * cos az)
           + sin lat * sin az * (sin lat * sin az))
    with (sin lat * sin lat * ((sin az)² + (cos az)²))
    by (unfold Rsqr; ring).
  rewrite sin2_cos2, Rmult_1_r. apply sqrt_square. exact Hs.
Qed.

(** What the function computes on the direction vector of an oblique
    ray, for any azimuth. *)
Lemma angles_of_direction (az lat : R) :
  0 < lat < PI / 2 ->
  calculate_angles_from_vector (direction (Fin az) (Fin lat))
  = (Fin (if Rlt_dec 0 (sin az) then acos (cos az) else - acos (cos az)),
     Fin lat).
Proof.
  intros Hlat.
  assert (Hsin : 0 < sin lat) by (apply sin_gt_0; lra).
  rewrite direction_fin. unfold calculate_angles_from_vector, np_norm2.
  unfold idx0, idx1, idx2. cbn [fst snd].
  rewrite (arccos_fin _ (COS_bound lat)).
  rewrite acos_cos by lra.
  rewrite latitude_test_false by lra.
  rewrite !mul_fin, !add_fin.
  rewrite sqrt_fin by nra.
  rewrite transverse_norm by lra.
  rewrite !div_fin by lra.
  replace (sin lat * cos az / sin lat) with (cos az) by (field; lra).
  replace (sin lat * sin az / sin lat) with (sin az) by (field; lra).
  rewrite (arccos_fin _ (COS_bound az)).
  change (of_Z 0) with (Fin 0). cbn [np_ltb npfloat_numeric NpFloat.ltb].
  destruct (Rlt_dec 0 (sin az)); reflexivity.
Qed.

Lemma acos_cos_branch (az : R) :
  - PI <= az < PI ->
  (if Rlt_dec 0 (sin az) then acos (cos az) else - acos (cos az)) = az.
Proof.
  intros Haz. destruct (Rlt_dec 0 (sin az)) as [Hpos | Hneg].
  - destruct (Rle_dec 0 az) as [Hge | Hlt].
    + apply acos_cos. lra.
    + exfalso. assert (0 <= sin (- az)) by (apply sin_ge_0; lra).
      rewrite sin_neg in *. lra.
  - destruct (Rle_dec az 0) as [Hle | Hgt].
    + rewrite <- cos_neg. rewrite acos_cos by lra. ring.
    + exfalso. apply Hneg. apply sin_gt_0; lra.
Qed.

(** C7 (amended).  For a zenith angle in [10^-3, pi/2) and an azimuth in
    [-pi, pi), the angles computed from the direction vector are the
    angles the vector was built from; at zenith 0 the function returns
    azimuth 0 and zenith 0 for every azimuth; and so it does for every
    vector whose computed zenith [np.arccos(vector[2])] compares equal to
    0, whatever its other components.  In binary64 this last case is that
    of every zenith below about 1.5e-8, whose cosine is 1.0: the lower
    bound of the first part keeps the zenith away from it. *)
Theorem angles_round_trip :
  (forall az lat : R,
      1 / 1000 <= lat < PI / 2 -> - PI <= az < PI ->
      calculate_angles_from_vector (direction (Fin az) (Fin lat))
      = (Fin az, Fin lat))
  /\ (forall az : R,
         calculate_angles_from_vector (direction (Fin az) (Fin 0))
         = (Fin 0, Fin 0))
  /\ (forall vector : vec3 npfloat,
         (np_arccos (idx2 vector) == of_Z 0)%np = true ->
         calculate_angles_from_vector vector = (Fin 0, Fin 0)).
Proof.
  split; [| split].
  - intros az lat Hlat Haz.
    rewrite angles_of_direction by lra.
    rewrite acos_cos_branch by exact Haz. reflexivity.
  - intros az. rewrite direction_fin.
    unfold calculate_angles_from_vector, idx2. cbn [snd].
    rewrite cos_0.
    rewrite arccos_fin by lra. rewrite acos_1.
    change (of_Z 0) with (Fin 0).
    rewrite eqb_fin_true by reflexivity. reflexivity.
  - intros vector Hzero. unfold calculate_angles_from_vector.
    rewrite Hzero. reflexivity.
Qed.

(** C7 as stated fails outside the principal range: for azimuth 3 pi/2
    (270 degrees, a value [generate_angles] can draw) and zenith pi/4 the
    function returns the azimuth -pi/2. *)
Lemma angles_round_trip_counterexample :
  (0 < PI / 4 < PI / 2)
  /\ calculate_angles_from_vector
       (direction (Fin (3 * (PI / 2))) (Fin (PI / 4)))
     = (Fin (- (PI / 2)), Fin (PI / 4))
  /\ calculate_angles_from_vector
       (direction (Fin (3 * (PI / 2))) (Fin (PI / 4)))
     <> (Fin (3 * (PI / 2)), Fin (PI / 4)).
Proof.
  assert (Hlat : 0 < PI / 4 < PI / 2) by (pose proof PI_RGT_0; lra).
  assert (Heq : calculate_angles_from_vector
                  (direction (Fin (3 * (PI / 2))) (Fin (PI / 4)))
                = (Fin (- (PI / 2)), Fin (PI / 4))).
  { rewrite angles_of_direction by exact Hlat.
    rewrite sin_3PI2, cos_3PI2, acos_0.
    destruct (Rlt_dec 0 (-1)); [lra | reflexivity]. }
  split; [exact Hlat |]. split; [exact Heq |].
  rewrite Heq. intros Hbad. injection Hbad as Hbad.
  pose proof PI_RGT_0. lra.
Qed.
End Angles.

Lemma angles_round_trip_witness :
  (1 / 1000 <= PI / 4 < PI / 2)%R /\ (- PI <= - (PI / 2) < PI)%R
  /\ calculate_angles_from_vector (direction (Fin (- (PI / 2))) (Fin (PI / 4)))
     = (Fin (- (PI / 2)), Fin (PI / 4)).
Proof.
  assert (Hlat : (1 / 1000 <= PI / 4 < PI / 2)%R)
    by (pose proof PI_RGT_0; pose proof PI2_1; lra).
  assert (Haz : (- PI <= - (PI / 2) < PI)%R) by (pose proof PI_RGT_0; lra).
  split; [exact Hlat |]. split; [exact Haz |].
  exact (proj1 angles_round_trip (- (PI / 2))%R (PI / 4)%R Hlat Haz).
Defined.

(** ** Arrays, loops and the shape of a run *)

Section Arrays.
Context {F A : Type}.

Lemma setitem_in_range (a : list A) (i : Z) (row : A) :
  (0 <= i < Z.of_nat (length a))%Z ->
  setitem (F := F) a i row = Normal (<[Z.to_nat i := row]> a).
Proof.
  intros Hi. unfold setitem.
  destruct (Z.ltb_spec i 0) as [Hneg | _]; [lia |].
  destruct (Z.leb_spec 0 i) as [_ | Hneg]; [| lia].
  destruct (Z.ltb_spec i (Z.of_nat (length a))) as [_ | Hbig]; [| lia].
  reflexivity.
Qed.

End Arrays.

Lemma py_range_empty (a b : Z) : (b <= a)%Z -> py_range a b = [].
Proof.
  intros Hab. unfold py_range.
  replace (Z.to_nat (b - a)) with 0%nat by lia. reflexivity.
Qed.

Lemma py_range_snoc (a b : Z) :
  (a <= b)%Z -> py_range a (b + 1) = py_range a b ++ [b].
Proof.
  intros Hab. unfold py_range.
  replace (Z.to_nat (b + 1 - a)) with (S (Z.to_nat (b - a))) by lia.
  rewrite seq_S, fmap_app. cbn [fmap list_fmap]. do 2 f_equal. lia.
Qed.

Lemma py_range_elem (a b i : Z) :
  i ∈ py_range a b -> (a <= i < b)%Z.
Proof.
  unfold py_range. intros Hi.
  apply list_elem_of_fmap in Hi as (k & -> & Hk).
  apply elem_of_seq in Hk. lia.
Qed.

Lemma for_loop_snoc {F St} (body : Z -> St -> flow F St)
  (l : list Z) (i : Z) (st : St) :
  for_loop body (l ++ [i]) st = st' ← for_loop body l st; body i st'.
Proof.
  revert st. induction l as [| j l IH]; intros st; cbn.
  - destruct (body i st); reflexivity.
  - destruct (body j st) as [st1 | r | e]; cbn; [apply IH | reflexivity ..].
Qed.

Section Run.
Context {F : Type} `{Numeric F}.
Variable random : nat -> F.
Variable fiber : Fiber_cylinder F.
Variable angle_elimination : bool.

Local Abbreviation body := (loop_body random fiber angle_elimination).
Local Abbreviation before :=
  (state_before random fiber angle_elimination).
Local Abbreviation trajectory :=
  (calculate_trajectory random fiber angle_elimination).

Lemma loop_init_normal (ray : Ray_cylinder F) (n : Z) :
  (core_n fiber == of_Z 0)%np = false ->
  (1 <= n)%Z ->
  loop_init fiber ray n
  = Normal {| self := ray; reflection_angle := latitude ray;
              Dots := <[0%nat := startpoint ray]>
                        (replicate (Z.to_nat n) (of_Z 0, of_Z 0, of_Z 0));
              Angles := <[0%nat := (azimut ray, latitude ray, of_Z 0)]>
                          (replicate (Z.to_nat n) (of_Z 0, of_Z 0, of_Z 0));
              draws := 0 |}.
Proof.
  intros Hcore Hn. unfold loop_init, index_ratio, np_zeros. rewrite Hcore.
  destruct (Z.ltb_spec n 0) as [Hneg | _]; [lia |]. cbn.
  rewrite !setitem_in_range by (rewrite length_replicate; lia).
  reflexivity.
Qed.

Lemma loop_init_zero (ray : Ray_cylinder F) :
  (core_n fiber == of_Z 0)%np = false ->
  loop_init fiber ray 0 = Raised IndexError.
Proof.
  intros Hcore. unfold loop_init, index_ratio. rewrite Hcore. reflexivity.
Qed.

(** Either the division of the indices raises, or the core index is not
    zero. *)
Lemma loop_init_cases (ray : Ray_cylinder F) (n : Z) :
  loop_init fiber ray n = Raised ZeroDivisionError
  \/ (core_n fiber == of_Z 0)%np = false.
Proof.
  unfold loop_init, index_ratio.
  destruct (core_n fiber == of_Z 0)%np; [left; reflexivity | right].
  reflexivity.
Qed.

Lemma before_first (ray : Ray_cylinder F) (n : Z) :
  before ray n 1 = loop_init fiber ray n.
Proof.
  unfold state_before. rewrite py_range_empty by lia.
  destruct (loop_init fiber ray n); reflexivity.
Qed.

Lemma before_next (ray : Ray_cylinder F) (n i : Z) :
  (1 <= i)%Z ->
  before ray n (i + 1) = st ← before ray n i; body i st.
Proof.
  intros Hi. unfold state_before. rewrite py_range_snoc by exact Hi.
  destruct (loop_init fiber ray n) as [st0 | r | e]; cbn; [| reflexivity ..].
  apply for_loop_snoc.
Qed.

Lemma arrays_ok_init (ray : Ray_cylinder F) (n : Z) (st : loop_state F) :
  loop_init fiber ray n = Normal st ->
  arrays_ok ray n st /\ self st = ray /\ reflection_angle st = latitude ray.
Proof.
  intros Hst.
  assert (Hcore : (core_n fiber == of_Z 0)%np = false).
  { unfold loop_init, index_ratio in Hst.
    destruct (core_n fiber == of_Z 0)%np; [discriminate | reflexivity]. }
  destruct (Z.le_gt_cases 1 n) as [Hn | Hn].
  - rewrite loop_init_normal in Hst by assumption.
    injection Hst as <-. cbn. unfold arrays_ok. cbn.
    rewrite !length_insert, !length_replicate.
    repeat split.
    apply list_lookup_insert_eq. rewrite length_replicate. lia.
  - exfalso. unfold loop_init, index_ratio, np_zeros in Hst.
    rewrite Hcore in Hst. cbn in Hst.
    destruct (Z.ltb_spec n 0) as [Hneg | Hpos]; [discriminate |].
    replace n with 0%Z in Hst by lia. discriminate.
Qed.

(** The two exits of an iteration and the case in which it goes on. *)
Lemma body_z_max (i : Z) (st : loop_state F) :
  (0 <= i < Z.of_nat (length (Dots st)))%Z ->
  (0 <= i < Z.of_nat (length (Angles st)))%Z ->
  (idx2 (calculate_intersection (self st) (core_r fiber))
     >? z_max fiber)%np = true ->
  body i st
  = Returned
      (<[Z.to_nat i :=
           clip_to_z_max (calculate_intersection (self st) (core_r fiber))
                         (vector (self st)) (z_max fiber)]> (Dots st),
       rad2deg_rows
         (<[Z.to_nat i := (azimut (self st), latitude (self st),
                           np_abs (reflection_angle st))]> (Angles st)),
       (i + 1)%Z, "z_max"%string).
Proof.
  intros HD HA Hz. unfold loop_body. rewrite Hz.
  rewrite !setitem_in_range by assumption. reflexivity.
Qed.

Lemma body_cases (ray : Ray_cylinder F) (n i : Z) (st : loop_state F) :
  (1 <= i < n)%Z ->
  arrays_ok ray n st ->
  (exists r, body i st = Returned r)
  \/ (exists st', body i st = Normal st'
                  /\ arrays_ok ray n st'
                  /\ reflection_angle st'
                     = (calculate_reflection (self st)
                          (calculate_intersection (self st) (core_r fiber))
                          (find_normal
                             (calculate_intersection (self st)
                                (core_r fiber)))).2).
Proof.
  intros Hi (HD & HA & H0).
  assert (HiD : (0 <= i < Z.of_nat (length (Dots st)))%Z) by lia.
  assert (HiA : (0 <= i < Z.of_nat (length (Angles st)))%Z) by lia.
  unfold loop_body.
  destruct (idx2 (calculate_intersection (self st) (core_r fiber))
              >? z_max fiber)%np.
  { left. rewrite !setitem_in_range by assumption. cbn. eauto. }
  destruct (calculate_reflection _ _ _) as [[az lat] ra].
  destruct (diffusion_on fiber) as [d |];
    rewrite !setitem_in_range by assumption; cbn;
    (destruct (angle_elimination && _); [left; eauto |]);
    right; eexists; (split; [reflexivity |]); cbn;
    unfold arrays_ok; cbn; rewrite !length_insert;
    (repeat split; try assumption);
    (rewrite list_lookup_insert_ne by lia; exact H0).
Qed.

(** If no iteration before [i] executes a [return], the loop reaches
    iteration [i], with both arrays intact. *)
Lemma before_progress (ray : Ray_cylinder F) (n : Z) (k : nat) :
  (core_n fiber == of_Z 0)%np = false ->
  (1 <= n)%Z ->
  (Z.of_nat k + 1 <= n)%Z ->
  (forall j st, (1 <= j < Z.of_nat k + 1)%Z ->
                before ray n j = Normal st ->
                forall r, body j st <> Returned r) ->
  exists st, before ray n (Z.of_nat k + 1) = Normal st
             /\ arrays_ok ray n st.
Proof.
  intros Hcore Hn. induction k as [| k IH]; intros Hk Hgo.
  - cbn [Z.of_nat Z.add]. rewrite before_first.
    rewrite loop_init_normal by assumption.
    eexists. split; [reflexivity |].
    eapply arrays_ok_init. apply loop_init_normal; assumption.
  - destruct IH as (st & Hst & Hok); [lia | |].
    { intros j st Hj. apply Hgo. lia. }
    replace (Z.of_nat (S k) + 1)%Z with ((Z.of_nat k + 1) + 1)%Z by lia.
    rewrite before_next by lia. rewrite Hst. cbn.
    destruct (body_cases ray n (Z.of_nat k + 1) st) as
      [(r & Hr) | (st' & Hst' & Hok' & _)]; [lia | exact Hok | |].
    + exfalso. eapply (Hgo (Z.of_nat k + 1)%Z st); [lia | exact Hst |].
      exact Hr.
    + exists st'. split; assumption.
Qed.

(** A [return] in iteration [i] is the result of the call. *)
Lemma trajectory_returned (ray : Ray_cylinder F) (n i : Z)
  (st : loop_state F) (r : result F) :
  (1 <= i < n)%Z ->
  before ray n i = Normal st ->
  body i st = Returned r ->
  trajectory ray n = inr r.
Proof.
  intros Hi Hst Hr.
  assert (Hnext : before ray n (i + 1) = Returned r).
  { rewrite before_next by lia. rewrite Hst. exact Hr. }
  assert (Hlater : forall k : nat,
             before ray n (i + 1 + Z.of_nat k) = Returned r).
  { induction k as [| k IH].
    - rewrite Z.add_0_r. exact Hnext.
    - replace (i + 1 + Z.of_nat (S k))%Z
        with ((i + 1 + Z.of_nat k) + 1)%Z by lia.
      rewrite before_next by lia. rewrite IH. reflexivity. }
  pose proof (Hlater (Z.to_nat (n - i - 1))) as Hend.
  replace (i + 1 + Z.of_nat (Z.to_nat (n - i - 1)))%Z with n in Hend by lia.
  unfold calculate_trajectory. rewrite Hend. reflexivity.
Qed.

(** The reflection_angle exit, with angle elimination switched on. *)
Lemma body_critical_exit (i : Z) (st : loop_state F) :
  angle_elimination = true ->
  (0 <= i < Z.of_nat (length (Dots st)))%Z ->
  (0 <= i < Z.of_nat (length (Angles st)))%Z ->
  let p := calculate_intersection (self st) (core_r fiber) in
  (idx2 p >? z_max fiber)%np = false ->
  (np_pi / of_Z 2 - np_abs (np_dot (find_normal p) (vector (self st)))
     <? termination_angle fiber)%np = true ->
  exists Dots Angles,
    body i st
    = Returned (Dots, Angles, (i + 1)%Z, "reflection_angle"%string).
Proof.
  intros Hae HD HA p Hz Hcrit. unfold loop_body. fold p.
  rewrite Hz, Hae. unfold calculate_reflection.
  destruct (calculate_angles_from_vector _) as [az lat].
  destruct (diffusion_on fiber) as [d |];
    rewrite !setitem_in_range by assumption; cbn [mbind flow_bind];
    rewrite Hcrit; cbn [andb]; eauto.
Qed.

(** How the state at the start of an iteration came about. *)
Lemma before_inversion (ray : Ray_cylinder F) (n : Z) (k : nat)
  (st : loop_state F) :
  before ray n (Z.of_nat k + 1) = Normal st ->
  (Z.of_nat k + 1 <= n)%Z ->
  arrays_ok ray n st
  /\ (k = 0%nat -> self st = ray /\ reflection_angle st = latitude ray)
  /\ (forall k', k = S k' ->
        exists prev,
          before ray n (Z.of_nat k' + 1) = Normal prev
          /\ body (Z.of_nat k' + 1) prev = Normal st
          /\ reflection_angle st
             = (calculate_reflection (self prev)
                  (calculate_intersection (self prev) (core_r fiber))
                  (find_normal
                     (calculate_intersection (self prev)
                        (core_r fiber)))).2).
Proof.
  revert st. induction k as [| k IH]; intros st Hst Hk.
  - cbn [Z.of_nat Z.add] in Hst. rewrite before_first in Hst.
    apply arrays_ok_init in Hst as (Hok & Hself & Hra).
    split; [exact Hok |]. split; [auto | discriminate].
  - replace (Z.of_nat (S k) + 1)%Z with ((Z.of_nat k + 1) + 1)%Z
      in Hst by lia.
    rewrite before_next in Hst by lia.
    destruct (before ray n (Z.of_nat k + 1)) as [prev | r | e] eqn:Hprev;
      cbn in Hst; try discriminate.
    destruct (IH prev eq_refl) as (Hok & _); [lia |].
    destruct (body_cases ray n (Z.of_nat k + 1) prev)
      as [(r & Hr) | (st' & Hst' & Hok' & Hra)]; [lia | exact Hok | |].
    + rewrite Hr in Hst. discriminate.
    + rewrite Hst' in Hst. injection Hst as <-.
      split; [exact Hok' |]. split; [discriminate |].
      intros k' [= <-]. exists prev. auto.
Qed.
End Run.

Section Budget.
Context {F : Type} `{Numeric F}.
Variable random : nat -> F.
Variable fiber : Fiber_cylinder F.
Variable angle_elimination : bool.

Local Abbreviation body := (loop_body random fiber angle_elimination).
Local Abbreviation before :=
  (state_before random fiber angle_elimination).
Local Abbreviation trajectory :=
  (calculate_trajectory random fiber angle_elimination).

(** With at least one row, every iteration that is reached starts with
    both arrays intact; otherwise the call has returned or the division
    of the indices has raised. *)
Lemma before_no_index_error (ray : Ray_cylinder F) (n : Z) (k : nat) :
  (1 <= n)%Z ->
  (Z.of_nat k + 1 <= n)%Z ->
  (exists st, before ray n (Z.of_nat k + 1) = Normal st
              /\ arrays_ok ray n st)
  \/ (exists r, before ray n (Z.of_nat k + 1) = Returned r)
  \/ before ray n (Z.of_nat k + 1) = Raised ZeroDivisionError.
Proof.
  intros Hn. induction k as [| k IH]; intros Hk.
  - cbn [Z.of_nat Z.add]. rewrite before_first.
    destruct (loop_init_cases fiber ray n) as [-> | Hcore]; [auto |].
    left. rewrite loop_init_normal by assumption.
    eexists. split; [reflexivity |].
    eapply (arrays_ok_init fiber).
    apply (loop_init_normal fiber); assumption.
  - replace (Z.of_nat (S k) + 1)%Z with ((Z.of_nat k + 1) + 1)%Z by lia.
    rewrite before_next by lia.
    destruct IH as [(st & Hst & Hok) | [(r & Hr) | Hzero]]; [lia | | |].
    + rewrite Hst. cbn.
      destruct (body_cases random fiber angle_elimination
                  ray n (Z.of_nat k + 1) st)
        as [(r & Hr) | (st' & Hst' & Hok' & _)]; [lia | exact Hok | |].
      * right. left. eauto.
      * left. eauto.
    + right. left. rewrite Hr. cbn. eauto.
    + right. right. rewrite Hzero. reflexivity.
Qed.

(** C4. With [max_reflection = 5] and a fibre whose core index is not
    zero (a zero index makes [fiber.clad_n / fiber.core_n] raise before
    anything is traced): if none of the iterations 1..4 that the loop
    reaches executes a [return] (the two [return]s in the loop are the
    z_max exit and the reflection_angle exit), the call returns
    the reason 'max_reflections' and the count 5; the arrays have 5 rows
    and row 0 of [Dots] is the start point. *)
Theorem reflection_budget_exhausted (ray : Ray_cylinder F) :
  (core_n fiber == of_Z 0)%np = false ->
  (forall i st, (1 <= i < 5)%Z ->
                before ray 5 i = Normal st ->
                forall r, body i st <> Returned r) ->
  exists Dots Angles,
    trajectory ray 5 = inr (Dots, Angles, 5%Z, "max_reflections"%string)
    /\ length Dots = 5%nat
    /\ length Angles = 5%nat
    /\ Dots !! 0%nat = Some (startpoint ray).
Proof.
  intros Hcore Hgo.
  destruct (before_progress random fiber angle_elimination ray 5 4)
    as (st & Hst & HD & HA & H0); [exact Hcore | lia | lia | exact Hgo |].
  change (Z.of_nat 4 + 1)%Z with 5%Z in Hst.
  unfold calculate_trajectory. rewrite Hst.
  exists (Dots st), (rad2deg_rows (Angles st)).
  split; [reflexivity |]. unfold rad2deg_rows.
  rewrite length_fmap. repeat split; assumption.
Qed.

(** C10. For [max_reflection >= 1] the subscripts that the function uses
    on [Dots] and [Angles] lie in [0, max_reflection): 0 before the loop,
    and in the loop the variable [i] of [range(1, max_reflection)], which
    is between 1 and [max_reflection - 1]; the call does not raise
    [IndexError], so every subscripted assignment is inside the arrays.  For [max_reflection = 0] the assignment
    [Dots[0] = ...], reached when the division of the indices has not
    raised, raises [IndexError]. *)
Theorem array_subscripts_in_range (ray : Ray_cylinder F) (n : Z) :
  ((1 <= n)%Z ->
   (0 <= 0 < n)%Z
   /\ Forall (fun i => (1 <= i <= n - 1)%Z) (py_range 1 n)
   /\ trajectory ray n <> inl IndexError)
  /\ (n = 0%Z -> (core_n fiber == of_Z 0)%np = false ->
      trajectory ray n = inl IndexError).
Proof.
  split.
  - intros Hn. split; [lia |]. split.
    + apply Forall_forall. intros i Hi.
      apply py_range_elem in Hi. lia.
    + unfold calculate_trajectory.
      destruct (before_no_index_error ray n (Z.to_nat (n - 1)) Hn)
        as [(st & Hst & _) | [(r & Hr) | Hzero]]; [lia | | |];
        replace (Z.of_nat (Z.to_nat (n - 1)) + 1)%Z with n in * by lia.
      * rewrite Hst. discriminate.
      * rewrite Hr. discriminate.
      * rewrite Hzero. discriminate.
  - intros -> Hcore. unfold calculate_trajectory, state_before.
    rewrite (loop_init_zero fiber) by exact Hcore. reflexivity.
Qed.
End Budget.

(** ** A negative discriminant *)

Section NegativeDiscriminant.
Local Open Scope R_scope.
Variable random : nat -> npfloat.
Variable fiber : Fiber_cylinder npfloat.
Variable angle_elimination : bool.

Lemma calculate_reflection_nan (self : Ray_cylinder npfloat) :
  calculate_reflection self nan_point (find_normal nan_point)
  = (NaN, NaN, NaN).
Proof. reflexivity. Qed.

(** An iteration whose intersection is the point (nan, nan, nan) stores
    it and goes on. *)
Lemma body_nan (i : Z) (st : loop_state npfloat) :
  (0 <= i < Z.of_nat (length (Dots st)))%Z ->
  (0 <= i < Z.of_nat (length (Angles st)))%Z ->
  calculate_intersection (self st) (core_r fiber) = nan_point ->
  loop_body random fiber angle_elimination i st
  = Normal {| self := set_values NaN NaN nan_point;
              reflection_angle := NaN;
              Dots := <[Z.to_nat i := nan_point]> (Dots st);
              Angles := <[Z.to_nat i := nan_point]> (Angles st);
              draws := match diffusion_on fiber with
                       | Some _ => S (S (draws st))
                       | None => draws st
                       end |}.
Proof.
  intros HD HA Hp. unfold loop_body. rewrite Hp.
  replace (idx2 nan_point >? z_max fiber)%np with false
    by (destruct (z_max fiber); reflexivity).
  rewrite calculate_reflection_nan.
  destruct (diffusion_on fiber) as [d |];
    rewrite !setitem_in_range by assumption; cbn;
    destruct (Req_dec_T 2 0); cbn; rewrite andb_false_r; reflexivity.
Qed.

Lemma calculate_intersection_after_nan (core_radius : npfloat) :
  calculate_intersection (set_values NaN NaN nan_point) core_radius
  = nan_point.
Proof. reflexivity. Qed.

(** C6 (amended).  A ray state with finite coordinates and angles, a
    non-zero zenith angle and a negative discriminant: no error is
    raised; [calculate_intersection] returns the point (nan, nan, nan),
    and the iteration of [calculate_trajectory] that starts in such a
    state stores that point in [Dots[i]] and goes on with it as the new
    position of the ray. *)
Theorem negative_discriminant_gives_nan
  (az lat x0 y0 z0 rad : R) (v : vec3 npfloat) :
  lat <> 0 ->
  (cos az * x0 + sin az * y0) * (cos az * x0 + sin az * y0)
    - x0 * x0 - y0 * y0 + rad * rad < 0 ->
  let ray := {| azimut := Fin az; latitude := Fin lat;
                startpoint := (Fin x0, Fin y0, Fin z0); vector := v |} in
  calculate_intersection ray (Fin rad) = nan_point
  /\ forall (i : Z) (st : loop_state npfloat),
       core_r fiber = Fin rad ->
       self st = ray ->
       (0 <= i < Z.of_nat (length (Dots st)))%Z ->
       (0 <= i < Z.of_nat (length (Angles st)))%Z ->
       exists st',
         loop_body random fiber angle_elimination i st = Normal st'
         /\ Dots st' = <[Z.to_nat i := nan_point]> (Dots st)
         /\ startpoint (self st') = nan_point.
Proof.
  intros Hlat Hd ray.
  assert (Hp : calculate_intersection ray (Fin rad) = nan_point)
    by (apply calculate_intersection_nan; assumption).
  split; [exact Hp |].
  intros i st Hr Hself HD HA.
  eexists. split; [| split].
  - apply body_nan; [assumption .. |]. rewrite Hr, Hself. exact Hp.
  - reflexivity.
  - reflexivity.
Qed.
End NegativeDiscriminant.

(** Side conditions on explicit data: the subscript is inside the array;
    the code before the loop runs (at least one row, non-zero core index). *)
Ltac rows_in_range :=
  cbn [Dots Angles]; rewrite ?length_insert, ?length_replicate; lia.

Ltac init_runs :=
  first [lia | assumption | apply eqb_fin_false; lra].

Lemma outside_ray_discriminant :
  ((cos 0 * 0 + sin 0 * 2) * (cos 0 * 0 + sin 0 * 2)
   - 0 * 0 - 2 * 2 + 1 * 1 < 0)%R.
Proof. rewrite sin_0, cos_0. lra. Qed.

Lemma quarter_pi_bounds : (0 < PI / 4 < PI / 2)%R.
Proof. pose proof PI_RGT_0. lra. Qed.

Lemma negative_discriminant_gives_nan_witness :
  (PI / 4 <> 0)%R
  /\ ((cos 0 * 0 + sin 0 * 2) * (cos 0 * 0 + sin 0 * 2)
      - 0 * 0 - 2 * 2 + 1 * 1 < 0)%R
  /\ calculate_intersection outside_ray (Fin 1) = nan_point.
Proof.
  assert (Hlat : (PI / 4 <> 0)%R) by (pose proof quarter_pi_bounds; lra).
  split; [exact Hlat |]. split; [exact outside_ray_discriminant |].
  exact (proj1 (negative_discriminant_gives_nan
                  sample_random (sample_fiber 1 1 1) true
                  0 (PI / 4) 0 2 0 1 (direction (Fin 0) (Fin (PI / 4)))
                  Hlat outside_ray_discriminant)).
Defined.

(** C6 as stated fails: for the ray that starts at (0, 2, 0), outside a
    core of radius 1, the discriminant is -3; the intersection is
    (nan, nan, nan) and the call returns normally, with that point in the
    rows 1 and 2 of [Dots]. *)
Lemma negative_discriminant_counterexample :
  calculate_intersection outside_ray (Fin 1) = nan_point
  /\ exists Angles,
       calculate_trajectory sample_random
         (sample_fiber (148 / 100) (146 / 100) 1) true outside_ray 3
       = inr ([(Fin 0, Fin 2, Fin 0); nan_point; nan_point], Angles,
              3%Z, "max_reflections"%string).
Proof.
  assert (Hp : calculate_intersection outside_ray (Fin 1) = nan_point).
  { apply calculate_intersection_nan;
      [pose proof quarter_pi_bounds; lra | exact outside_ray_discriminant]. }
  split; [exact Hp |].
  unfold calculate_trajectory.
  change 3%Z with (1 + 1 + 1)%Z.
  rewrite !before_next by lia. rewrite before_first.
  rewrite loop_init_normal by init_runs.
  cbn [mbind flow_bind].
  rewrite body_nan; [| rows_in_range | rows_in_range | exact Hp].
  cbn [mbind flow_bind].
  rewrite body_nan;
    [| rows_in_range | rows_in_range
     | apply calculate_intersection_after_nan].
  cbn. eexists. reflexivity.
Qed.

(** ** A ray parallel to the axis *)

Section AxialRay.
Local Open Scope R_scope.
Variable random : nat -> npfloat.
Variable fiber : Fiber_cylinder npfloat.
Variable angle_elimination : bool.

Lemma find_normal_fin (x y : R) (pz : npfloat) :
  x * x + y * y <> 0 ->
  find_normal (Fin x, Fin y, pz)
  = (Fin (-1 * x / sqrt (x * x + y * y)),
     Fin (-1 * y / sqrt (x * x + y * y)),
     Fin (-1 * 0 / sqrt (x * x + y * y))).
Proof.
  intros Hxy.
  assert (Hd : sqrt (x * x + y * y) <> 0).
  { apply Rgt_not_eq. apply sqrt_lt_R0. nra. }
  unfold find_normal, idx0, idx1. cbn [fst snd].
  rewrite !pow2_fin, add_fin, sqrt_fin by nra.
  change (of_Z (-1)) with (Fin (-1)). change (of_Z 0) with (Fin 0).
  rewrite !mul_fin, !div_fin by exact Hd. reflexivity.
Qed.

Lemma direction_axial (az : R) :
  direction (Fin az) (Fin 0) = (Fin 0, Fin 0, Fin 1).
Proof. rewrite direction_fin, sin_0, cos_0, !Rmult_0_l. reflexivity. Qed.

Lemma half_pi_fin : (np_pi / of_Z 2)%np = Fin (PI / 2).
Proof. apply div_fin. lra. Qed.

(** The critical angle, when it is a number, is at most pi/2. *)
Lemma termination_angle_bound :
  termination_angle fiber = NaN
  \/ exists t, termination_angle fiber = Fin t /\ t <= PI / 2.
Proof.
  unfold termination_angle.
  destruct (clad_n fiber / core_n fiber)%np as [q |]; [| left; reflexivity].
  cbn. unfold NpFloat.on_unit_interval.
  destruct (Rle_dec (-1) q); [| left; reflexivity].
  destruct (Rle_dec q 1); [| left; reflexivity].
  right. exists (asin q). split; [reflexivity | apply asin_bound].
Qed.

(** A zero incidence value never triggers the reflection_angle exit. *)
Lemma critical_test_zero :
  (np_pi / of_Z 2 - np_abs (Fin 0) <? termination_angle fiber)%np = false.
Proof.
  rewrite half_pi_fin, abs_fin, Rabs_R0, sub_fin.
  destruct termination_angle_bound as [-> | (t & -> & Ht)].
  - reflexivity.
  - apply ltb_fin_false. lra.
Qed.

Lemma calculate_intersection_zenith_zero
  (az : R) (sp : vec3 npfloat) (core_radius : npfloat) :
  calculate_intersection (set_values (Fin az) (Fin 0) sp) core_radius
  = (idx0 sp, idx1 sp, Fin (-1)).
Proof.
  unfold calculate_intersection. cbn [latitude startpoint set_values].
  change (of_Z 0) with (Fin 0). rewrite eqb_fin_true by reflexivity.
  reflexivity.
Qed.

(** Reflection of the axial direction at a radial normal. *)
Lemma calculate_reflection_axial
  (az x y : R) (z : npfloat) (p sp : vec3 npfloat) :
  x * x + y * y <> 0 ->
  calculate_reflection (set_values (Fin az) (Fin 0) sp) p
    (find_normal (Fin x, Fin y, z))
  = (Fin 0, Fin 0, Fin 0).
Proof.
  intros Hxy. rewrite find_normal_fin by exact Hxy.
  unfold calculate_reflection. cbn [vector set_values].
  rewrite direction_axial, reflected_vector_fin. cbn zeta.
  unfold np_dot, idx0, idx1, idx2. cbn [fst snd].
  rewrite !mul_fin, !add_fin.
  set (d := sqrt (x * x + y * y)).
  replace (-1 * x / d * 0 + -1 * y / d * 0 + -1 * 0 / d * 1) with 0
    by (unfold Rdiv; ring).
  unfold calculate_angles_from_vector, idx2. cbn [snd].
  replace (-2 * (-1 * 0 / d * 0) + 1) with 1 by (unfold Rdiv; ring).
  rewrite arccos_fin by lra. rewrite acos_1.
  change (of_Z 0) with (Fin 0).
  rewrite eqb_fin_true by reflexivity. reflexivity.
Qed.

(** An iteration for a ray with zenith angle 0 off the axis, in a fibre
    with [z_max >= -1] and no diffusion: the "intersection" (x, y, -1) is
    stored and becomes the new position; the ray stays axial. *)
Lemma body_axial (az x y zm : R) (pz : npfloat) (i : Z)
  (st : loop_state npfloat) :
  diffusion_on fiber = None ->
  z_max fiber = Fin zm -> -1 <= zm ->
  x * x + y * y <> 0 ->
  self st = set_values (Fin az) (Fin 0) (Fin x, Fin y, pz) ->
  (0 <= i < Z.of_nat (length (Dots st)))%Z ->
  (0 <= i < Z.of_nat (length (Angles st)))%Z ->
  loop_body random fiber angle_elimination i st
  = Normal {| self := set_values (Fin 0) (Fin 0) (Fin x, Fin y, Fin (-1));
              reflection_angle := Fin 0;
              Dots := <[Z.to_nat i := (Fin x, Fin y, Fin (-1))]> (Dots st);
              Angles := <[Z.to_nat i := (Fin 0, Fin 0, Fin 0)]> (Angles st);
              draws := draws st |}.
Proof.
  intros Hdiff Hzm Hz Hxy Hself HD HA. unfold loop_body.
  rewrite Hself, Hdiff, Hzm.
  rewrite calculate_intersection_zenith_zero.
  cbn [idx0 idx1 idx2 fst snd].
  rewrite ltb_fin_false by exact Hz.
  rewrite (calculate_reflection_axial az x y (Fin (-1)) _ _ Hxy).
  rewrite !setitem_in_range by assumption. cbn [mbind flow_bind].
  rewrite critical_test_zero, andb_false_r.
  rewrite abs_fin, Rabs_R0. reflexivity.
Qed.
End AxialRay.

Section AxialRun.
Local Open Scope R_scope.
Variable random : nat -> npfloat.
Variable fiber : Fiber_cylinder npfloat.
Variable angle_elimination : bool.
Variables az x y z0 zm : R.
Hypothesis core_index : (core_n fiber == of_Z 0)%np = false.
Hypothesis no_diffusion : diffusion_on fiber = None.
Hypothesis fiber_length : z_max fiber = Fin zm.
Hypothesis length_bound : -1 <= zm.
Hypothesis off_axis : x * x + y * y <> 0.

Local Abbreviation ray :=
  (set_values (Fin az) (Fin 0) (Fin x, Fin y, Fin z0)).

(** Every iteration is reached, and the ray is still axial there. *)
Lemma before_axial (n : Z) (k : nat) :
  (Z.of_nat k + 1 <= n)%Z ->
  exists (st : loop_state npfloat) (az' : R) (pz : npfloat),
    state_before random fiber angle_elimination ray n (Z.of_nat k + 1)
    = Normal st
    /\ self st = set_values (Fin az') (Fin 0) (Fin x, Fin y, pz)
    /\ length (Dots st) = Z.to_nat n
    /\ length (Angles st) = Z.to_nat n.
Proof using All.
  induction k as [| k IH]; intros Hk.
  - cbn [Z.of_nat Z.add]. rewrite before_first.
    rewrite loop_init_normal by init_runs.
    eexists _, az, (Fin z0). split; [reflexivity |].
    cbn. rewrite !length_insert, !length_replicate. auto.
  - destruct IH as (st & az' & pz & Hst & Hself & HD & HA); [lia |].
    replace (Z.of_nat (S k) + 1)%Z with ((Z.of_nat k + 1) + 1)%Z by lia.
    rewrite before_next by lia. rewrite Hst. cbn [mbind flow_bind].
    rewrite (body_axial random fiber angle_elimination az' x y zm pz)
      by (assumption || lia).
    eexists _, 0, (Fin (-1)). split; [reflexivity |].
    cbn. rewrite !length_insert. auto.
Qed.

(** Whatever the length of the fibre, the axial ray uses up the
    reflection budget. *)
Lemma axial_ray_exhausts_budget (n : Z) :
  (1 <= n)%Z ->
  exists Dots Angles,
    calculate_trajectory random fiber angle_elimination ray n
    = inr (Dots, Angles, n, "max_reflections"%string).
Proof using All.
  intros Hn.
  destruct (before_axial n (Z.to_nat (n - 1)))
    as (st & _ & _ & Hst & _); [lia |].
  replace (Z.of_nat (Z.to_nat (n - 1)) + 1)%Z with n in Hst by lia.
  unfold calculate_trajectory. rewrite Hst. eauto.
Qed.

Lemma axial_ray_no_return (n i : Z) (st : loop_state npfloat) :
  (1 <= i < n)%Z ->
  state_before random fiber angle_elimination ray n i = Normal st ->
  forall r, loop_body random fiber angle_elimination i st <> Returned r.
Proof using All.
  intros Hi Hst r.
  destruct (before_axial n (Z.to_nat (i - 1)))
    as (st' & az' & pz & Hst' & Hself & HD & HA); [lia |].
  replace (Z.of_nat (Z.to_nat (i - 1)) + 1)%Z with i in Hst' by lia.
  rewrite Hst in Hst'. injection Hst' as <-.
  rewrite (body_axial random fiber angle_elimination az' x y zm pz)
    by (assumption || lia).
  discriminate.
Qed.
End AxialRun.

(** C5 on the code.  Fibre of core radius 1, indices 1.48 and 1.46,
    [z_max = 1]; ray with zenith angle 0 from (1/2, 0, 0); five rows.  The
    call does not stop at [z_max]: every iteration stores the point
    (1/2, 0, -1), and the reason returned is 'max_reflections'. *)
Theorem axial_ray_trajectory :
  calculate_trajectory sample_random
    (sample_fiber (148 / 100) (146 / 100) 1) true axial_ray 5
  = inr ([(Fin (1 / 2), Fin 0, Fin 0);
          (Fin (1 / 2), Fin 0, Fin (-1)); (Fin (1 / 2), Fin 0, Fin (-1));
          (Fin (1 / 2), Fin 0, Fin (-1)); (Fin (1 / 2), Fin 0, Fin (-1))],
         rad2deg_rows (replicate 5 (Fin 0, Fin 0, Fin 0)),
         5%Z, "max_reflections"%string).
Proof.
  assert (Hxy : (1 / 2 * (1 / 2) + 0 * 0 <> 0)%R) by lra.
  assert (Hz : (-1 <= 1)%R) by lra.
  unfold calculate_trajectory, axial_ray.
  change 5%Z with (1 + 1 + 1 + 1 + 1)%Z.
  rewrite !before_next by lia. rewrite before_first.
  rewrite loop_init_normal by init_runs.
  cbn [mbind flow_bind].
  do 4 (erewrite body_axial;
        [| reflexivity | reflexivity | exact Hz | exact Hxy | reflexivity
         | rows_in_range | rows_in_range ];
        cbn [mbind flow_bind]).
  reflexivity.
Qed.

Lemma sample_core_index :
  (core_n (sample_fiber (148 / 100) (146 / 100) 1) == of_Z 0)%np = false.
Proof. apply eqb_fin_false. lra. Qed.

Lemma reflection_budget_exhausted_witness :
  (core_n (sample_fiber (148 / 100) (146 / 100) 1) == of_Z 0)%np = false
  /\ (forall i st, (1 <= i < 5)%Z ->
     state_before sample_random (sample_fiber (148 / 100) (146 / 100) 1)
       true axial_ray 5 i = Normal st ->
     forall r, loop_body sample_random
                 (sample_fiber (148 / 100) (146 / 100) 1) true i st
               <> Returned r)
  /\ (exists Dots Angles,
       calculate_trajectory sample_random
         (sample_fiber (148 / 100) (146 / 100) 1) true axial_ray 5
       = inr (Dots, Angles, 5%Z, "max_reflections"%string)
       /\ length Dots = 5%nat
       /\ length Angles = 5%nat
       /\ Dots !! 0%nat = Some (startpoint axial_ray)).
Proof.
  assert (Hgo : forall i st, (1 <= i < 5)%Z ->
     state_before sample_random (sample_fiber (148 / 100) (146 / 100) 1)
       true axial_ray 5 i = Normal st ->
     forall r, loop_body sample_random
                 (sample_fiber (148 / 100) (146 / 100) 1) true i st
               <> Returned r).
  { intros i st Hi.
    apply (axial_ray_no_return sample_random _ true 0 (1 / 2) 0 0 1);
      [exact sample_core_index | reflexivity | reflexivity | lra | lra
       | exact Hi]. }
  split; [exact sample_core_index |]. split; [exact Hgo |].
  exact (reflection_budget_exhausted sample_random _ true axial_ray
           sample_core_index Hgo).
Defined.

Lemma array_subscripts_in_range_witness :
  (1 <= 5)%Z
  /\ (0 <= 0 < 5)%Z
  /\ Forall (fun i => (1 <= i <= 5 - 1)%Z) (py_range 1 5)
  /\ calculate_trajectory sample_random
       (sample_fiber (148 / 100) (146 / 100) 1) true axial_ray 5
     <> inl IndexError.
Proof.
  assert (Hn : (1 <= 5)%Z) by lia.
  split; [exact Hn |].
  exact (proj1 (array_subscripts_in_range sample_random
                  (sample_fiber (148 / 100) (146 / 100) 1) true axial_ray 5)
               Hn).
Defined.

(** ** The z_max exit *)

Section MaxLength.
Local Open Scope R_scope.
Variable random : nat -> npfloat.
Variable fiber : Fiber_cylinder npfloat.
Variable angle_elimination : bool.

(** Clipping along a direction with a non-zero axial component puts the
    point at [z_max]. *)
Lemma clip_to_z_max_axial (p v : vec3 npfloat) (pz vz zm : R) :
  idx2 p = Fin pz -> idx2 v = Fin vz -> vz <> 0 ->
  idx2 (clip_to_z_max p v (Fin zm)) = Fin zm.
Proof.
  intros Hp Hv Hvz. unfold clip_to_z_max. cbn [idx2 snd].
  fold (idx2 p) (idx2 v). rewrite Hp, Hv.
  rewrite (div_fin _ _ Hvz), sub_fin, mul_fin, sub_fin.
  f_equal. field. exact Hvz.
Qed.

(** C2 (amended).  Iteration [i] is reached in state [st] and finds an
    intersection with axial coordinate above [z_max].  Then the call
    returns the reason 'z_max' and the count [i + 1]; row [i] of [Dots] is
    the intersection moved back along [self.vector], and its z-coordinate
    is exactly [z_max] when the axial component of [self.vector] is a
    non-zero number; row [i] of [Angles] holds the current azimuth and
    zenith and [abs(reflection_angle)], where [reflection_angle] is the
    zenith angle the ray was started with when [i = 1] and the value
    returned by [calculate_reflection] in iteration [i - 1] when
    [i > 1]. *)
Theorem z_max_exit (ray : Ray_cylinder npfloat) (n i : Z)
  (st : loop_state npfloat) :
  (1 <= i < n)%Z ->
  state_before random fiber angle_elimination ray n i = Normal st ->
  (idx2 (calculate_intersection (self st) (core_r fiber))
     >? z_max fiber)%np = true ->
  let final :=
    clip_to_z_max (calculate_intersection (self st) (core_r fiber))
                  (vector (self st)) (z_max fiber) in
  calculate_trajectory random fiber angle_elimination ray n
  = inr (<[Z.to_nat i := final]> (Dots st),
         rad2deg_rows
           (<[Z.to_nat i := (azimut (self st), latitude (self st),
                             np_abs (reflection_angle st))]> (Angles st)),
         (i + 1)%Z, "z_max"%string)
  /\ (forall vz, idx2 (vector (self st)) = Fin vz -> vz <> 0 ->
                 idx2 final = z_max fiber)
  /\ (i = 1%Z -> reflection_angle st = latitude ray)
  /\ ((1 < i)%Z ->
      exists prev,
        state_before random fiber angle_elimination ray n (i - 1)
        = Normal prev
        /\ reflection_angle st
           = (calculate_reflection (self prev)
                (calculate_intersection (self prev) (core_r fiber))
                (find_normal
                   (calculate_intersection (self prev)
                      (core_r fiber)))).2).
Proof.
  intros Hi Hst Hz final.
  assert (Hst' : state_before random fiber angle_elimination ray n
                   (Z.of_nat (Z.to_nat (i - 1)) + 1) = Normal st)
    by (replace (Z.of_nat (Z.to_nat (i - 1)) + 1)%Z with i by lia;
        exact Hst).
  destruct (before_inversion random fiber angle_elimination ray n
              (Z.to_nat (i - 1)) st Hst')
    as ((HD & HA & _) & Hfirst & Hlater); [lia |].
  repeat split.
  - eapply trajectory_returned; [exact Hi | exact Hst |].
    apply body_z_max; [lia | lia | exact Hz].
  - intros vz Hv Hvz.
    apply ltb_true_inv in Hz as (zm & pz & Hzm & Hpz & _).
    rewrite Hzm. unfold final. rewrite Hzm.
    eapply clip_to_z_max_axial; eassumption.
  - intros ->. apply Hfirst. reflexivity.
  - intros Hgt.
    destruct (Hlater (Z.to_nat (i - 2))) as (prev & Hprev & _ & Hra);
      [lia |].
    replace (Z.of_nat (Z.to_nat (i - 2)) + 1)%Z with (i - 1)%Z
      in Hprev by lia.
    exists prev. split; [exact Hprev | exact Hra].
Qed.
End MaxLength.

(** ** An oblique ray in a fibre that is too short for a reflection *)

(** The wall is met at height 1. *)
Lemma oblique_ray_height :
  (0 + cos (PI / 4) / sin (PI / 4)
       * (- (cos 0 * 0 + sin 0 * 0)
          + sqrt ((cos 0 * 0 + sin 0 * 0) * (cos 0 * 0 + sin 0 * 0)
                  - 0 * 0 - 0 * 0 + 1 * 1)) = 1)%R.
Proof.
  rewrite sin_0, cos_0, sin_PI4, cos_PI4.
  replace ((1 * 0 + 0 * 0) * (1 * 0 + 0 * 0) - 0 * 0 - 0 * 0 + 1 * 1)%R
    with 1%R by ring.
  rewrite sqrt_1.
  assert (sqrt 2 <> 0)%R by (apply Rgt_not_eq, sqrt_lt_R0; lra).
  field. assumption.
Qed.

Lemma oblique_ray_intersection :
  exists x y z : R,
    calculate_intersection oblique_ray (Fin 1) = (Fin x, Fin y, Fin z)
    /\ (z = 1)%R.
Proof.
  eexists _, _, _. split.
  - apply calculate_intersection_fin.
    + pose proof quarter_pi_bounds. lra.
    + rewrite sin_PI4. apply Rgt_not_eq.
      apply Rdiv_lt_0_compat; [lra | apply sqrt_lt_R0; lra].
    + rewrite sin_0, cos_0. lra.
  - exact oblique_ray_height.
Qed.

Lemma oblique_ray_above_z_max :
  (idx2 (calculate_intersection oblique_ray (Fin 1)) >? Fin (1 / 2))%np
  = true.
Proof.
  destruct oblique_ray_intersection as (x & y & z & -> & ->).
  apply ltb_fin_true. lra.
Qed.

(** The call returns in the first iteration, at the z_max exit. *)
Lemma short_fiber_run :
  calculate_trajectory sample_random (sample_fiber 1 1 (1 / 2)) true
    oblique_ray 5
  = inr ([(Fin 0, Fin 0, Fin 0);
          clip_to_z_max (calculate_intersection oblique_ray (Fin 1))
                        (vector oblique_ray) (Fin (1 / 2));
          (Fin 0, Fin 0, Fin 0); (Fin 0, Fin 0, Fin 0);
          (Fin 0, Fin 0, Fin 0)],
         rad2deg_rows
           [(Fin 0, Fin (PI / 4), Fin 0);
            (Fin 0, Fin (PI / 4), np_abs (Fin (PI / 4)));
            (Fin 0, Fin 0, Fin 0); (Fin 0, Fin 0, Fin 0);
            (Fin 0, Fin 0, Fin 0)],
         2%Z, "z_max"%string).
Proof.
  eapply trajectory_returned with (i := 1%Z); [lia | |].
  - rewrite before_first. apply loop_init_normal; init_runs.
  - rewrite body_z_max;
      [reflexivity | rows_in_range | rows_in_range
       | exact oblique_ray_above_z_max].
Qed.

Lemma oblique_start_reached :
  state_before sample_random (sample_fiber 1 1 (1 / 2)) true oblique_ray 5 1
  = Normal oblique_start.
Proof.
  rewrite before_first. rewrite loop_init_normal by init_runs. reflexivity.
Qed.

Lemma rad2deg_fin (a : R) : rad2deg (Fin a) = Fin (a * (180 / PI)).
Proof.
  unfold rad2deg. change (of_Z 180) with (Fin 180).
  change np_pi with (Fin PI).
  rewrite div_fin by exact PI_neq0. apply mul_fin.
Qed.

Lemma z_max_exit_witness :
  (1 <= 1 < 5)%Z
  /\ state_before sample_random (sample_fiber 1 1 (1 / 2)) true
       oblique_ray 5 1 = Normal oblique_start
  /\ (idx2 (calculate_intersection (self oblique_start)
              (core_r (sample_fiber 1 1 (1 / 2))))
        >? z_max (sample_fiber 1 1 (1 / 2)))%np = true
  /\ exists Dots Angles,
       calculate_trajectory sample_random (sample_fiber 1 1 (1 / 2)) true
         oblique_ray 5
       = inr (Dots, Angles, (1 + 1)%Z, "z_max"%string).
Proof.
  assert (Hi : (1 <= 1 < 5)%Z) by lia.
  split; [exact Hi |].
  split; [exact oblique_start_reached |].
  split; [exact oblique_ray_above_z_max |].
  eexists _, _.
  exact (proj1 (z_max_exit sample_random (sample_fiber 1 1 (1 / 2)) true
                  oblique_ray 5 1 oblique_start Hi
                  oblique_start_reached oblique_ray_above_z_max)).
Defined.

(** C2 as stated fails in the first iteration, where no reflection has
    taken place: the incidence entry of the last row is the zenith angle
    (45 degrees), not the absolute value of the incidence entry of the row
    before it (0). *)
Lemma z_max_exit_counterexample :
  exists Dots Angles first last,
    calculate_trajectory sample_random (sample_fiber 1 1 (1 / 2)) true
      oblique_ray 5
    = inr (Dots, Angles, 2%Z, "z_max"%string)
    /\ Angles !! 0%nat = Some first
    /\ Angles !! 1%nat = Some last
    /\ idx2 first = Fin (0 * (180 / PI))
    /\ idx2 last = Fin (Rabs (PI / 4) * (180 / PI))
    /\ idx2 last <> np_abs (idx2 first).
Proof.
  eexists _, _, _, _. rewrite short_fiber_run.
  split; [reflexivity |]. split; [reflexivity |]. split; [reflexivity |].
  cbn [rad2deg_row idx2 snd]. rewrite abs_fin, !rad2deg_fin, abs_fin.
  split; [reflexivity |]. split; [reflexivity |].
  intros Hbad. injection Hbad as Hbad.
  rewrite Rmult_0_l, Rabs_R0 in Hbad.
  pose proof quarter_pi_bounds as Hq.
  rewrite Rabs_pos_eq in Hbad by lra.
  assert (PI / 4 * (180 / PI) = 45)%R by (field; exact PI_neq0).
  lra.
Qed.

(** ** Equal refractive indices *)

Section CriticalAngle.
Local Open Scope R_scope.

(** The incidence value [np.dot(normal, self.vector)] at the exit point of
    an oblique ray that starts inside the core is negative. *)
Lemma incidence_negative (az lat x0 y0 rad : R) :
  0 < lat < PI / 2 ->
  x0 * x0 + y0 * y0 < rad * rad ->
  let gamma := cos az * x0 + sin az * y0 in
  let t := - gamma + sqrt (gamma * gamma - x0 * x0 - y0 * y0 + rad * rad) in
  let x := x0 + cos az * t in
  let y := y0 + sin az * t in
  let d := sqrt (x * x + y * y) in
  -1 * x / d * (sin lat * cos az) + -1 * y / d * (sin lat * sin az)
    + -1 * 0 / d * cos lat < 0.
Proof.
  intros Hlat Hin gamma t x y d.
  pose proof (discriminant_pos x0 y0 az rad Hin) as Hd. cbn zeta in Hd.
  fold gamma in Hd.
  set (D := gamma * gamma - x0 * x0 - y0 * y0 + rad * rad) in *.
  assert (Hsin : 0 < sin lat) by (apply sin_gt_0; lra).
  assert (Hs0 : 0 < sqrt D) by (apply sqrt_lt_R0; exact Hd).
  assert (Hss : sqrt D * sqrt D = D) by (apply sqrt_sqrt; lra).
  assert (Hcs : cos az * cos az + sin az * sin az = 1).
  { pose proof (sin2_cos2 az) as Hsc. unfold Rsqr in Hsc. lra. }
  assert (Hproj : x * cos az + y * sin az = sqrt D).
  { replace (x * cos az + y * sin az)
      with (gamma + t * (cos az * cos az + sin az * sin az))
      by (unfold x, y, gamma; ring).
    rewrite Hcs. unfold t. ring. }
  assert (Hcircle : x * x + y * y = rad * rad)
    by exact (exit_point_on_circle az x0 y0 rad Hin).
  assert (Hdpos : 0 < d) by (apply sqrt_lt_R0; nra).
  replace (-1 * x / d * (sin lat * cos az) + -1 * y / d * (sin lat * sin az)
           + -1 * 0 / d * cos lat)
    with (- (sin lat * (x * cos az + y * sin az) / d))
    by (field; lra).
  rewrite Hproj.
  assert (0 < sin lat * sqrt D / d);
    [apply Rdiv_lt_0_compat; nra | lra].
Qed.

(** C3 (amended).  Equal non-zero refractive indices, angle elimination
    on, at least two rows, an oblique ray that starts strictly inside the
    core, whose first intersection with the wall is not above [z_max] and
    which meets the wall there at an incidence value
    [np.dot(normal, self.vector)] of magnitude at least 10^-3: the call
    returns at the first reflection, with the reason 'reflection_angle'
    and the count 2.  The bound on the incidence value keeps the test
    [np.pi / 2 - abs(reflection_angle) < termination_angle] away from the
    values that binary64 absorbs: for a magnitude below about 1.1e-16 the
    difference is [np.pi / 2] itself and the test fails. *)
Theorem equal_indices_stop_at_first_reflection
  (random : nat -> npfloat) (diffusion : option npfloat)
  (clad_r : npfloat) (index rad zm az lat x0 y0 z0 : R) (n : Z) :
  index <> 0 ->
  0 < lat < PI / 2 ->
  x0 * x0 + y0 * y0 < rad * rad ->
  (2 <= n)%Z ->
  let gamma := cos az * x0 + sin az * y0 in
  let t := - gamma + sqrt (gamma * gamma - x0 * x0 - y0 * y0 + rad * rad) in
  z0 + cos lat / sin lat * t <= zm ->
  1 / 1000
  <= sin lat * sqrt (gamma * gamma - x0 * x0 - y0 * y0 + rad * rad)
     / sqrt (rad * rad) ->
  exists Dots Angles,
    calculate_trajectory random
      {| diffusion := diffusion; core_r := Fin rad; clad_r := clad_r;
         core_n := Fin index; clad_n := Fin index; z_max := Fin zm |}
      true
      (set_values (Fin az) (Fin lat) (Fin x0, Fin y0, Fin z0)) n
    = inr (Dots, Angles, 2%Z, "reflection_angle"%string).
Proof.
  intros Hindex Hlat Hin Hn gamma t Hz Hsteep.
  set (fiber := {| diffusion := diffusion; core_r := Fin rad;
                   clad_r := clad_r; core_n := Fin index;
                   clad_n := Fin index; z_max := Fin zm |}).
  set (ray := set_values (Fin az) (Fin lat) (Fin x0, Fin y0, Fin z0)).
  pose proof (discriminant_pos x0 y0 az rad Hin) as Hd. cbn zeta in Hd.
  assert (Hsin : 0 < sin lat) by (apply sin_gt_0; lra).
  assert (Hp : calculate_intersection ray (Fin rad)
               = (Fin (x0 + cos az * t), Fin (y0 + sin az * t),
                  Fin (z0 + cos lat / sin lat * t))).
  { apply calculate_intersection_fin; [lra | lra |]. cbn zeta. lra. }
  pose proof (incidence_negative az lat x0 y0 rad Hlat Hin) as Hneg.
  cbn zeta in Hneg. fold gamma in Hneg. fold t in Hneg.
  set (x := x0 + cos az * t) in *. set (y := y0 + sin az * t) in *.
  assert (Hxy : x * x + y * y <> 0).
  { pose proof (exit_point_on_circle az x0 y0 rad Hin) as Hcircle.
    cbn zeta in Hcircle. fold gamma in Hcircle. fold t in Hcircle.
    fold x y in Hcircle. nra. }
  destruct (body_critical_exit random fiber true 1
              {| self := ray; reflection_angle := latitude ray;
                 Dots := <[0%nat := startpoint ray]>
                           (replicate (Z.to_nat n)
                              (of_Z 0, of_Z 0, of_Z 0));
                 Angles := <[0%nat := (azimut ray, latitude ray, of_Z 0)]>
                             (replicate (Z.to_nat n)
                                (of_Z 0, of_Z 0, of_Z 0));
                 draws := 0 |} eq_refl)
    as (Dots & Angles & Hbody).
  - rows_in_range.
  - rows_in_range.
  - cbn [self core_r fiber z_max]. rewrite Hp.
    apply ltb_fin_false. exact Hz.
  - cbn [self core_r fiber]. rewrite Hp.
    rewrite find_normal_fin by exact Hxy.
    unfold ray. cbn [vector set_values]. rewrite direction_fin.
    unfold np_dot, idx0, idx1, idx2. cbn [fst snd].
    rewrite !mul_fin, !add_fin, half_pi_fin, abs_fin, sub_fin.
    unfold termination_angle, fiber. cbn [clad_n core_n].
    rewrite div_fin by exact Hindex.
    replace (index / index) with 1 by (field; exact Hindex).
    rewrite arcsin_fin by lra. rewrite asin_1.
    apply ltb_fin_true.
    rewrite Rabs_left by exact Hneg. lra.
  - exists Dots, Angles.
    eapply trajectory_returned with (i := 1%Z); [lia | | exact Hbody].
    rewrite before_first.
    apply loop_init_normal; [apply eqb_fin_false; exact Hindex | lia].
Qed.
End CriticalAngle.

(** The oblique ray from the origin meets the wall of a core of radius 1
    at the incidence value [- sin (pi/4)]. *)
Lemma oblique_ray_incidence :
  (1 / 1000
   <= sin (PI / 4)
      * sqrt ((cos 0 * 0 + sin 0 * 0) * (cos 0 * 0 + sin 0 * 0)
              - 0 * 0 - 0 * 0 + 1 * 1)
      / sqrt (1 * 1))%R.
Proof.
  rewrite sin_0, cos_0, sin_PI4.
  replace ((1 * 0 + 0 * 0) * (1 * 0 + 0 * 0) - 0 * 0 - 0 * 0 + 1 * 1)%R
    with 1%R by ring.
  replace (1 * 1)%R with 1%R by ring. rewrite sqrt_1.
  assert (Hpos : (0 < sqrt 2)%R) by (apply sqrt_lt_R0; lra).
  assert (Hsq : (sqrt 2 * sqrt 2 = 2)%R) by (apply sqrt_sqrt; lra).
  assert (Hle : (sqrt 2 <= 2)%R) by nra.
  replace (1 / sqrt 2 * 1 / 1)%R with (/ sqrt 2)%R by (field; lra).
  assert (Hinv : (/ 2 <= / sqrt 2)%R) by (apply Rinv_le_contravar; lra).
  lra.
Qed.

Lemma equal_indices_stop_at_first_reflection_witness :
  (1 <> 0)%R
  /\ (0 < PI / 4 < PI / 2)%R
  /\ (0 * 0 + 0 * 0 < 1 * 1)%R
  /\ (2 <= 5)%Z
  /\ (1 / 1000
      <= sin (PI / 4)
         * sqrt ((cos 0 * 0 + sin 0 * 0) * (cos 0 * 0 + sin 0 * 0)
                 - 0 * 0 - 0 * 0 + 1 * 1)
         / sqrt (1 * 1))%R
  /\ exists Dots Angles,
       calculate_trajectory sample_random (sample_fiber 1 1 2) true
         oblique_ray 5
       = inr (Dots, Angles, 2%Z, "reflection_angle"%string).
Proof.
  assert (Hindex : (1 <> 0)%R) by lra.
  assert (Hin : (0 * 0 + 0 * 0 < 1 * 1)%R) by lra.
  assert (Hn : (2 <= 5)%Z) by lia.
  assert (Hz : (0 + cos (PI / 4) / sin (PI / 4)
                    * (- (cos 0 * 0 + sin 0 * 0)
                       + sqrt ((cos 0 * 0 + sin 0 * 0)
                               * (cos 0 * 0 + sin 0 * 0)
                               - 0 * 0 - 0 * 0 + 1 * 1)) <= 2)%R)
    by (rewrite oblique_ray_height; lra).
  split; [exact Hindex |]. split; [exact quarter_pi_bounds |].
  split; [exact Hin |]. split; [exact Hn |].
  split; [exact oblique_ray_incidence |].
  exact (equal_indices_stop_at_first_reflection sample_random None
           (Fin (6 / 5)) 1 1 2 0 (PI / 4) 0 0 0 5
           Hindex quarter_pi_bounds Hin Hn Hz oblique_ray_incidence).
Defined.

(** C3 as stated fails when the fibre ends before the first reflection: with
    equal indices, core radius 1 and [z_max = 1/2], the oblique ray from the
    origin with zenith angle pi/4 would meet the wall at height 1, and the
    call returns the reason 'z_max'. *)
Lemma equal_indices_counterexample :
  clad_n (sample_fiber 1 1 (1 / 2)) = core_n (sample_fiber 1 1 (1 / 2))
  /\ (0 < PI / 4 < PI / 2)%R
  /\ (0 * 0 + 0 * 0 < 1 * 1)%R
  /\ (exists Dots Angles,
        calculate_trajectory sample_random (sample_fiber 1 1 (1 / 2)) true
          oblique_ray 5
        = inr (Dots, Angles, 2%Z, "z_max"%string))
  /\ forall Dots Angles count,
       calculate_trajectory sample_random (sample_fiber 1 1 (1 / 2)) true
         oblique_ray 5
       <> inr (Dots, Angles, count, "reflection_angle"%string).
Proof.
  split; [reflexivity |]. split; [exact quarter_pi_bounds |].
  split; [lra |]. rewrite short_fiber_run. split.
  - eexists _, _. reflexivity.
  - intros Dots Angles count Hbad. injection Hbad as _ _ _ Hreason.
    discriminate Hreason.
Qed.


(** * Further properties of the code *)

(** ** Directions and angles *)

Section DirectionFacts.
Local Open Scope R_scope.

Lemma deg2rad_fin (a : R) : deg2rad (Fin a) = Fin (a * (PI / 180)).
Proof.
  unfold deg2rad. change (of_Z 180) with (Fin 180).
  change np_pi with (Fin PI).
  rewrite div_fin by lra. apply mul_fin.
Qed.

Lemma direction_norm (az lat : R) :
  np_norm3 (direction (Fin az) (Fin lat)) = Fin 1.
Proof.
  rewrite direction_fin, np_norm3_fin. f_equal.
  replace (sin lat * cos az * (sin lat * cos az)
           + sin lat * sin az * (sin lat * sin az) + cos lat * cos lat)
    with ((sin lat)² * ((sin az)² + (cos az)²) + (cos lat)²)
    by (unfold Rsqr; ring).
  rewrite sin2_cos2, Rmult_1_r, sin2_cos2. apply sqrt_1.
Qed.

(** X1. Whatever angles are stored by [set_values] (or [__init__]),
    [set_angles] or [generate_angles], the direction vector stored with
    them has length 1. *)
Theorem stored_direction_is_unit
  (random : nat -> R) (drawn : nat) (self : Ray_cylinder npfloat)
  (az lat m : R) (sp : vec3 npfloat) :
  np_norm3 (vector (set_values (Fin az) (Fin lat) sp)) = Fin 1
  /\ np_norm3 (vector (set_angles self (Fin az) (Fin lat)).2) = Fin 1
  /\ np_norm3
       (vector (generate_angles (fun k => Fin (random k)) drawn self
                  (Fin m)).1.2)
     = Fin 1.
Proof.
  split; [apply direction_norm |]. split; [apply direction_norm |].
  unfold generate_angles. cbn [fst snd vector].
  change (of_Z 360) with (Fin 360).
  rewrite !mul_fin, !deg2rad_fin. apply direction_norm.
Qed.

(** For a point [(c, s)] of the unit circle, the azimuth chosen by
    [calculate_angles_from_vector] has cosine [c] and sine [s]. *)
Lemma azimuth_recovers (c s : R) :
  c * c + s * s = 1 ->
  let az := if Rlt_dec 0 s then acos c else - acos c in
  cos az = c /\ sin az = s /\ - PI <= az <= PI.
Proof.
  intros Hcs az.
  assert (Hc : -1 <= c <= 1) by (split; nra).
  pose proof (acos_bound c) as Hb.
  assert (Hsin : sin (acos c) = Rabs s).
  { rewrite sin_acos by exact Hc. rewrite <- sqrt_Rsqr_abs. f_equal.
    unfold Rsqr. lra. }
  unfold az. destruct (Rlt_dec 0 s) as [Hs | Hs].
  - rewrite cos_acos by exact Hc. rewrite Hsin, Rabs_pos_eq by lra.
    repeat split; lra.
  - rewrite cos_neg, sin_neg, cos_acos by exact Hc.
    rewrite Hsin, Rabs_left1 by lra. repeat split; lra.
Qed.

(** The angles of a finite vector whose axial component is strictly between
    -1 and 1 and whose transverse part has length [n > 0]. *)
Lemma angles_of_vector (v0 v1 v2 n : R) :
  -1 < v2 < 1 -> 0 < n -> v0 * v0 + v1 * v1 = n * n ->
  calculate_angles_from_vector (Fin v0, Fin v1, Fin v2)
  = (Fin (if Rlt_dec 0 (v1 / n) then acos (v0 / n) else - acos (v0 / n)),
     Fin (acos v2)).
Proof.
  intros Hv2 Hn Hnorm.
  unfold calculate_angles_from_vector, np_norm2, idx0, idx1, idx2.
  cbn [fst snd].
  rewrite arccos_fin by lra.
  pose proof (acos_bound_lt v2 Hv2) as Hlat.
  rewrite latitude_test_false by lra.
  rewrite !mul_fin, add_fin, sqrt_fin by nra.
  rewrite Hnorm, sqrt_square by lra.
  rewrite !div_fin by lra.
  assert (Hcs : v0 / n * (v0 / n) + v1 / n * (v1 / n) = 1).
  { replace (v0 / n * (v0 / n) + v1 / n * (v1 / n))
      with ((v0 * v0 + v1 * v1) / (n * n)) by (field; lra).
    rewrite Hnorm. field. lra. }
  rewrite arccos_fin by (split; nra).
  change (of_Z 0) with (Fin 0). cbn [np_ltb npfloat_numeric NpFloat.ltb].
  destruct (Rlt_dec 0 (v1 / n)); reflexivity.
Qed.

(** X2. [calculate_angles_from_vector] is a right inverse of the
    angles-to-vector map on unit vectors that do not point straight
    backwards: for a unit vector with axial component in (-1, 1] it returns
    a zenith in [0, pi) and an azimuth in [-pi, pi] whose direction vector
    is the vector it was given. *)
Theorem direction_of_computed_angles (v0 v1 v2 : R) :
  v0 * v0 + v1 * v1 + v2 * v2 = 1 ->
  -1 < v2 ->
  exists az lat : R,
    calculate_angles_from_vector (Fin v0, Fin v1, Fin v2) = (Fin az, Fin lat)
    /\ 0 <= lat < PI
    /\ - PI <= az <= PI
    /\ direction (Fin az) (Fin lat) = (Fin v0, Fin v1, Fin v2).
Proof.
  intros Hunit Hback.
  assert (Hv2 : v2 <= 1) by nra.
  destruct (Req_dec_T v2 1) as [-> | Hne].
  - assert (v0 = 0) by nra. assert (v1 = 0) by nra. subst v0 v1.
    exists 0, 0. split; [| split; [| split]].
    + unfold calculate_angles_from_vector, idx2. cbn [snd].
      rewrite arccos_fin by lra. rewrite acos_1.
      change (of_Z 0) with (Fin 0).
      rewrite eqb_fin_true by reflexivity. reflexivity.
    + pose proof PI_RGT_0. lra.
    + pose proof PI_RGT_0. lra.
    + rewrite direction_fin, sin_0, cos_0, !Rmult_0_l. reflexivity.
  - assert (Hv2' : -1 < v2 < 1) by lra.
    set (n := sqrt (1 - v2 * v2)).
    assert (Hn : 0 < n) by (apply sqrt_lt_R0; nra).
    assert (Hnn : n * n = 1 - v2 * v2) by (apply sqrt_sqrt; nra).
    assert (Hnorm : v0 * v0 + v1 * v1 = n * n) by lra.
    assert (Hcs : v0 / n * (v0 / n) + v1 / n * (v1 / n) = 1).
    { replace (v0 / n * (v0 / n) + v1 / n * (v1 / n))
        with ((v0 * v0 + v1 * v1) / (n * n)) by (field; lra).
      rewrite Hnorm. field. lra. }
    destruct (azimuth_recovers _ _ Hcs) as (Hcos & Hsin & Haz).
    pose proof (acos_bound_lt v2 Hv2') as Hlat.
    eexists _, _. split; [apply (angles_of_vector v0 v1 v2 n); assumption |].
    split; [lra |]. split; [exact Haz |].
    rewrite direction_fin, Hcos, Hsin, cos_acos by lra.
    assert (Hsl : sin (acos v2) = n).
    { rewrite sin_acos by lra. unfold n, Rsqr. reflexivity. }
    rewrite Hsl.
    replace (n * (v0 / n)) with v0 by (field; lra).
    replace (n * (v1 / n)) with v1 by (field; lra).
    reflexivity.
Qed.
End DirectionFacts.

Lemma direction_of_computed_angles_witness :
  (3 / 5 * (3 / 5) + 0 * 0 + 4 / 5 * (4 / 5) = 1)%R
  /\ (-1 < 4 / 5)%R
  /\ exists az lat : R,
       calculate_angles_from_vector (Fin (3 / 5), Fin 0, Fin (4 / 5))
       = (Fin az, Fin lat)
       /\ direction (Fin az) (Fin lat) = (Fin (3 / 5), Fin 0, Fin (4 / 5)).
Proof.
  assert (Hunit : (3 / 5 * (3 / 5) + 0 * 0 + 4 / 5 * (4 / 5) = 1)%R) by lra.
  assert (Hback : (-1 < 4 / 5)%R) by lra.
  split; [exact Hunit |]. split; [exact Hback |].
  destruct (direction_of_computed_angles _ _ _ Hunit Hback)
    as (az & lat & Heq & _ & _ & Hdir).
  exists az, lat. split; assumption.
Defined.

(** ** Normals and reflections *)

Section ReflectionFacts.
Local Open Scope R_scope.

Lemma div_zero_nan (a : R) : (Fin a / Fin 0)%np = NaN.
Proof.
  cbn. unfold NpFloat.div.
  destruct (Req_dec_T 0 0); [reflexivity | contradiction].
Qed.

Lemma np_dot_fin (a0 a1 a2 b0 b1 b2 : R) :
  np_dot (Fin a0, Fin a1, Fin a2) (Fin b0, Fin b1, Fin b2)
  = Fin (a0 * b0 + a1 * b1 + a2 * b2).
Proof. reflexivity. Qed.

(** X3. [Fiber_cylinder.find_normal] at a point off the axis is a unit
    vector with no axial component that points from the point to the
    axis, whatever the height of the point; at a point of the axis all
    three components are nan. *)
Theorem find_normal_unit_inward :
  (forall (x y : R) (pz : npfloat),
      x * x + y * y <> 0 ->
      exists nx ny : R,
        find_normal (Fin x, Fin y, pz) = (Fin nx, Fin ny, Fin 0)
        /\ nx * nx + ny * ny = 1
        /\ nx * sqrt (x * x + y * y) = - x
        /\ ny * sqrt (x * x + y * y) = - y)
  /\ (forall pz : npfloat, find_normal (Fin 0, Fin 0, pz) = nan_point).
Proof.
  split.
  - intros x y pz Hxy.
    assert (Hpos : 0 < x * x + y * y) by nra.
    assert (Hd : 0 < sqrt (x * x + y * y)) by (apply sqrt_lt_R0; exact Hpos).
    assert (Hdd : sqrt (x * x + y * y) * sqrt (x * x + y * y) = x * x + y * y)
      by (apply sqrt_sqrt; lra).
    rewrite find_normal_fin by exact Hxy.
    set (d := sqrt (x * x + y * y)) in *.
    exists (-1 * x / d), (-1 * y / d). split; [| split; [| split]].
    + do 2 f_equal. unfold Rdiv. ring.
    + replace (-1 * x / d * (-1 * x / d) + -1 * y / d * (-1 * y / d))
        with ((x * x + y * y) / (d * d)) by (field; lra).
      rewrite Hdd. field. lra.
    + field. lra.
    + field. lra.
  - intros pz. unfold find_normal, idx0, idx1. cbn [fst snd].
    rewrite !pow2_fin, add_fin, sqrt_fin by lra.
    replace (0 * 0 + 0 * 0) with 0 by ring. rewrite sqrt_0.
    change (of_Z (-1)) with (Fin (-1)). change (of_Z 0) with (Fin 0).
    rewrite !mul_fin, !div_zero_nan. reflexivity.
Qed.

(** X4. The law of reflection in [calculate_reflection]: for a unit normal
    the reflected vector has the opposite component along the normal, and
    reflecting it once more gives the incident vector back. *)
Theorem reflection_flips_normal_component (nx ny nz vx vy vz : R) :
  np_norm3 (Fin nx, Fin ny, Fin nz) = Fin 1 ->
  let n := (Fin nx, Fin ny, Fin nz) in
  let v := (Fin vx, Fin vy, Fin vz) in
  np_dot n (reflected_vector n v) = (- np_dot n v)%np
  /\ reflected_vector n (reflected_vector n v) = v.
Proof.
  intros Hn n v. rewrite np_norm3_fin in Hn.
  assert (Hunit : nx * nx + ny * ny + nz * nz = 1).
  { injection Hn as Hn.
    rewrite <- (sqrt_sqrt (nx * nx + ny * ny + nz * nz)) by nra.
    rewrite Hn. ring. }
  unfold n, v. rewrite !reflected_vector_fin. cbn zeta.
  rewrite !np_dot_fin, neg_fin.
  set (a := nx * vx + ny * vy + nz * vz).
  assert (Hflip : nx * (-2 * (nx * a) + vx) + ny * (-2 * (ny * a) + vy)
                  + nz * (-2 * (nz * a) + vz) = - a).
  { transitivity (a - 2 * a * (nx * nx + ny * ny + nz * nz)).
    - unfold a. ring.
    - rewrite Hunit. ring. }
  split.
  - f_equal. exact Hflip.
  - rewrite Hflip. f_equal; [f_equal |]; f_equal; ring.
Qed.

(** Components of the vector reflected at the wall of a cylinder. *)
Lemma wall_reflection_components (az lat x y : R) :
  x * x + y * y <> 0 ->
  let d := sqrt (x * x + y * y) in
  let nx := -1 * x / d in
  let ny := -1 * y / d in
  let nz := -1 * 0 / d in
  let vx := sin lat * cos az in
  let vy := sin lat * sin az in
  let vz := cos lat in
  let a := nx * vx + ny * vy + nz * vz in
  let q := x * cos az + y * sin az in
  a = - (sin lat * q) / d
  /\ -2 * (nx * a) + vx = sin lat * (cos az - 2 * q * x / (x * x + y * y))
  /\ -2 * (ny * a) + vy = sin lat * (sin az - 2 * q * y / (x * x + y * y))
  /\ -2 * (nz * a) + vz = cos lat.
Proof.
  intros Hxy d nx ny nz vx vy vz a q.
  assert (Hpos : 0 < x * x + y * y) by nra.
  assert (Hd : 0 < d) by (apply sqrt_lt_R0; exact Hpos).
  assert (Hdd : d * d = x * x + y * y) by (apply sqrt_sqrt; lra).
  assert (Ha : a = - (sin lat * q) / d).
  { unfold a, nx, ny, nz, vx, vy, vz, q. field. lra. }
  split; [exact Ha |]. rewrite Ha. rewrite <- Hdd.
  unfold nx, ny, nz, vx, vy, vz. repeat split; field; lra.
Qed.

(** Reflection of an oblique direction at the radial normal of a point off
    the axis: the zenith angle is kept, the returned incidence value is
    the radial component of the direction with the opposite sign, and the
    new azimuth has the opposite radial and the same tangential
    component. *)
Lemma cylinder_reflection
  (az lat x y : R) (pz : npfloat) (p sp : vec3 npfloat) :
  0 < lat < PI ->
  x * x + y * y <> 0 ->
  exists az' : R,
    calculate_reflection (set_values (Fin az) (Fin lat) sp) p
      (find_normal (Fin x, Fin y, pz))
    = (Fin az', Fin lat,
       Fin (- (sin lat * (x * cos az + y * sin az)) / sqrt (x * x + y * y)))
    /\ cos az' * x + sin az' * y = - (x * cos az + y * sin az)
    /\ sin az' * x - cos az' * y = sin az * x - cos az * y.
Proof.
  intros Hlat Hxy.
  assert (Hpos : 0 < x * x + y * y) by nra.
  assert (Hsl : 0 < sin lat) by (apply sin_gt_0; lra).
  assert (Hcs : cos az * cos az + sin az * sin az = 1).
  { pose proof (sin2_cos2 az) as Hsc. unfold Rsqr in Hsc. lra. }
  destruct (wall_reflection_components az lat x y Hxy)
    as (Ha & H0 & H1 & H2).
  cbn zeta in Ha, H0, H1, H2.
  rewrite find_normal_fin by exact Hxy.
  unfold calculate_reflection. cbn [vector set_values].
  rewrite direction_fin, reflected_vector_fin, np_dot_fin. cbn zeta.
  rewrite H0, H1, H2, Ha.
  set (q := x * cos az + y * sin az) in *.
  set (c' := cos az - 2 * q * x / (x * x + y * y)).
  set (s' := sin az - 2 * q * y / (x * x + y * y)).
  assert (Hunit : c' * c' + s' * s' = 1).
  { unfold c', s'.
    replace ((cos az - 2 * q * x / (x * x + y * y))
             * (cos az - 2 * q * x / (x * x + y * y))
             + (sin az - 2 * q * y / (x * x + y * y))
               * (sin az - 2 * q * y / (x * x + y * y)))
      with (cos az * cos az + sin az * sin az
            - 4 * q * (x * cos az + y * sin az) / (x * x + y * y)
            + 4 * q * q / (x * x + y * y))
      by (field; lra).
    fold q. rewrite Hcs. field. lra. }
  assert (Hcl : -1 < cos lat < 1).
  { pose proof (COS_bound lat) as [Hl Hu].
    pose proof (sin2_cos2 lat) as Hsc. unfold Rsqr in Hsc. split; nra. }
  rewrite (angles_of_vector _ _ _ (sin lat)); [| exact Hcl | exact Hsl |].
  2:{ transitivity (sin lat * sin lat * (c' * c' + s' * s')); [ring |].
      rewrite Hunit. ring. }
  replace (sin lat * c' / sin lat) with c' by (field; lra).
  replace (sin lat * s' / sin lat) with s' by (field; lra).
  rewrite acos_cos by lra.
  destruct (azimuth_recovers c' s' Hunit) as (Hcos & Hsin & _).
  eexists. split; [reflexivity |].
  rewrite Hcos, Hsin. unfold c', s', q. split; field; lra.
Qed.

(** X5. A reflection at the wall of a cylinder keeps the zenith angle: for
    an oblique ray (zenith between 10^-3 and pi - 10^-3) and the normal of
    any point off the axis, [calculate_reflection] returns the zenith angle
    of the ray, an incidence value that is minus the radial component of
    the direction, and an azimuth whose radial component is reversed and
    whose tangential component is unchanged.  The bounds keep the zenith
    away from the angles whose cosine is 1.0 or -1.0 in binary64 (within
    about 1.5e-8 of 0 or pi), for which the zenith cannot be recovered
    from the reflected vector and, near 0, line 95 resets both angles. *)
Theorem cylinder_reflection_keeps_zenith
  (az lat x y : R) (pz : npfloat) (p sp : vec3 npfloat) :
  1 / 1000 <= lat <= PI - 1 / 1000 ->
  x * x + y * y <> 0 ->
  exists az' : R,
    calculate_reflection (set_values (Fin az) (Fin lat) sp) p
      (find_normal (Fin x, Fin y, pz))
    = (Fin az', Fin lat,
       Fin (- (sin lat * (x * cos az + y * sin az)) / sqrt (x * x + y * y)))
    /\ cos az' * x + sin az' * y = - (x * cos az + y * sin az)
    /\ sin az' * x - cos az' * y = sin az * x - cos az * y.
Proof.
  intros Hlat Hxy.
  assert (Hoblique : 0 < lat < PI) by lra.
  exact (cylinder_reflection az lat x y pz p sp Hoblique Hxy).
Qed.
End ReflectionFacts.

Lemma find_normal_unit_inward_witness :
  (3 * 3 + 4 * 4 <> 0)%R
  /\ exists nx ny : R,
       find_normal (Fin 3, Fin 4, Fin 7) = (Fin nx, Fin ny, Fin 0)
       /\ (nx * nx + ny * ny = 1)%R.
Proof.
  assert (Hxy : (3 * 3 + 4 * 4 <> 0)%R) by lra.
  split; [exact Hxy |].
  destruct (proj1 find_normal_unit_inward 3%R 4%R (Fin 7) Hxy)
    as (nx & ny & Heq & Hunit & _).
  exists nx, ny. split; assumption.
Defined.

Lemma unit_normal_example : np_norm3 (Fin 1, Fin 0, Fin 0) = Fin 1.
Proof.
  rewrite np_norm3_fin. f_equal.
  replace (1 * 1 + 0 * 0 + 0 * 0)%R with 1%R by ring. apply sqrt_1.
Qed.

Lemma reflection_flips_normal_component_witness :
  np_norm3 (Fin 1, Fin 0, Fin 0) = Fin 1
  /\ reflected_vector (Fin 1, Fin 0, Fin 0)
       (reflected_vector (Fin 1, Fin 0, Fin 0) (Fin 3, Fin 4, Fin 5))
     = (Fin 3, Fin 4, Fin 5).
Proof.
  split; [exact unit_normal_example |].
  exact (proj2 (reflection_flips_normal_component 1 0 0 3 4 5
                  unit_normal_example)%R).
Defined.

Lemma cylinder_reflection_keeps_zenith_witness :
  (1 / 1000 <= PI / 4 <= PI - 1 / 1000)%R
  /\ (1 * 1 + 0 * 0 <> 0)%R
  /\ exists az' a : R,
       calculate_reflection oblique_ray (Fin 1, Fin 0, Fin 1)
         (find_normal (Fin 1, Fin 0, Fin 1))
       = (Fin az', Fin (PI / 4), Fin a).
Proof.
  assert (Hlat : (1 / 1000 <= PI / 4 <= PI - 1 / 1000)%R)
    by (pose proof PI2_1; lra).
  assert (Hxy : (1 * 1 + 0 * 0 <> 0)%R) by lra.
  split; [exact Hlat |]. split; [exact Hxy |].
  destruct (cylinder_reflection_keeps_zenith 0%R (PI / 4)%R 1%R 0%R (Fin 1)
              (Fin 1, Fin 0, Fin 1) (Fin 0, Fin 0, Fin 0) Hlat Hxy)
    as (az' & Heq & _).
  eexists az', _. exact Heq.
Defined.

(** ** The chord of a ray across the core *)

Section ChordFacts.
Local Open Scope R_scope.

Lemma cos2_sin2_one (az : R) : cos az * cos az + sin az * sin az = 1.
Proof. pose proof (sin2_cos2 az) as Hsc. unfold Rsqr in Hsc. lra. Qed.

Lemma chord_inside (rad az x y : R) :
  x * x + y * y < rad * rad ->
  0 < discriminant rad az x y /\ 0 < chord rad az x y.
Proof.
  intros Hin. unfold chord.
  assert (Hd : 0 < discriminant rad az x y).
  { pose proof (Rle_0_sqr (cos az * x + sin az * y)) as Hsq.
    unfold Rsqr in Hsq. unfold discriminant. lra. }
  split; [exact Hd |].
  assert (Hs0 : 0 < sqrt (discriminant rad az x y))
    by (apply sqrt_lt_R0; exact Hd).
  assert (Hss : sqrt (discriminant rad az x y)
                * sqrt (discriminant rad az x y)
                = discriminant rad az x y) by (apply sqrt_sqrt; lra).
  set (s := sqrt (discriminant rad az x y)) in *.
  unfold discriminant in Hss. nra.
Qed.

(** On the wall, heading inwards: the discriminant is the square of the
    radial component of the transverse direction. *)
Lemma chord_on_wall (rad az x y : R) :
  x * x + y * y = rad * rad ->
  cos az * x + sin az * y < 0 ->
  sqrt (discriminant rad az x y) = - (cos az * x + sin az * y)
  /\ chord rad az x y = - (cos az * x + sin az * y)
                        - (cos az * x + sin az * y).
Proof.
  intros Hwall Hin.
  assert (Hs : sqrt (discriminant rad az x y) = - (cos az * x + sin az * y)).
  { unfold discriminant.
    replace ((cos az * x + sin az * y) * (cos az * x + sin az * y)
             - x * x - y * y + rad * rad)
      with ((- (cos az * x + sin az * y)) * (- (cos az * x + sin az * y)))
      by (rewrite <- Hwall; ring).
    apply sqrt_square. lra. }
  split; [exact Hs |]. unfold chord. rewrite Hs. ring.
Qed.

Lemma chord_lands_on_wall (rad az x y : R) :
  0 <= discriminant rad az x y ->
  let t := chord rad az x y in
  (x + cos az * t) * (x + cos az * t) + (y + sin az * t) * (y + sin az * t)
  = rad * rad
  /\ (x + cos az * t) * cos az + (y + sin az * t) * sin az
     = sqrt (discriminant rad az x y).
Proof.
  intros Hd t.
  assert (Hss : sqrt (discriminant rad az x y)
                * sqrt (discriminant rad az x y)
                = discriminant rad az x y) by (apply sqrt_sqrt; lra).
  pose proof (cos2_sin2_one az) as Hcs.
  set (gamma := cos az * x + sin az * y).
  assert (Ht : t = - gamma + sqrt (discriminant rad az x y)) by reflexivity.
  split.
  - replace ((x + cos az * t) * (x + cos az * t)
             + (y + sin az * t) * (y + sin az * t))
      with (x * x + y * y + 2 * gamma * t
            + (cos az * cos az + sin az * sin az) * (t * t))
      by (unfold gamma; ring).
    rewrite Hcs, Ht. unfold discriminant in Hss |- *. fold gamma in Hss |- *.
    nra.
  - replace ((x + cos az * t) * cos az + (y + sin az * t) * sin az)
      with (gamma + t * (cos az * cos az + sin az * sin az))
      by (unfold gamma; ring).
    rewrite Hcs, Ht. ring.
Qed.

Lemma calculate_intersection_chord (rad az lat x y z : R) :
  lat <> 0 -> sin lat <> 0 ->
  0 <= discriminant rad az x y ->
  calculate_intersection
    (set_values (Fin az) (Fin lat) (Fin x, Fin y, Fin z)) (Fin rad)
  = (Fin (x + cos az * chord rad az x y),
     Fin (y + sin az * chord rad az x y),
     Fin (z + cos lat / sin lat * chord rad az x y)).
Proof.
  intros Hlat Hsin Hd.
  exact (calculate_intersection_fin az lat x y z rad
           (direction (Fin az) (Fin lat)) Hlat Hsin Hd).
Qed.

Lemma cotangent_pos (lat : R) : 0 < lat < PI / 2 -> 0 < cos lat / sin lat.
Proof.
  intros Hlat. apply Rdiv_lt_0_compat.
  - apply cos_gt_0; lra.
  - apply sin_gt_0; lra.
Qed.
End ChordFacts.

(** ** Random start points and angles *)

Section Generators.
Local Open Scope R_scope.
Variable random : nat -> R.
Variable drawn : nat.
Hypothesis first_draw : 0 <= random drawn < 1.
Hypothesis second_draw : 0 <= random (S drawn) < 1.

(** The coordinates that [generate_startpoint] computes. *)
Lemma generate_startpoint_fin (self : Ray_cylinder npfloat) (rad : R) :
  generate_startpoint (fun k => Fin (random k)) drawn self (Fin rad)
  = ((Fin (random (S drawn) * rad * cos (random drawn * PI)),
      Fin (random (S drawn) * rad * sin (random drawn * PI)), Fin 0),
     with_startpoint self
       (Fin (random (S drawn) * rad * cos (random drawn * PI)),
        Fin (random (S drawn) * rad * sin (random drawn * PI)), Fin 0),
     S (S drawn)).
Proof. reflexivity. Qed.

Lemma generated_point_inside (rad : R) :
  0 < rad ->
  let x := random (S drawn) * rad * cos (random drawn * PI) in
  let y := random (S drawn) * rad * sin (random drawn * PI) in
  x * x + y * y < rad * rad /\ 0 <= y.
Proof using first_draw second_draw.
  intros Hrad x y.
  pose proof (cos2_sin2_one (random drawn * PI)) as Hcs.
  pose proof PI_RGT_0 as Hpi.
  assert (Hsin : 0 <= sin (random drawn * PI)) by (apply sin_ge_0; nra).
  split.
  - replace (x * x + y * y)
      with (random (S drawn) * rad * (random (S drawn) * rad)
            * (cos (random drawn * PI) * cos (random drawn * PI)
               + sin (random drawn * PI) * sin (random drawn * PI)))
      by (unfold x, y; ring).
    rewrite Hcs.
    assert (Hw : 0 <= random (S drawn) * rad < rad) by nra.
    set (w := random (S drawn) * rad) in *. nra.
  - unfold y. apply Rmult_le_pos; [nra | exact Hsin].
Qed.

(** X6. With draws in [0, 1) and a positive radius, [generate_startpoint]
    returns (and stores as the start point) a point at height 0 that lies
    strictly inside the circle of that radius and in the half-plane
    [y >= 0]; the angles and the direction vector of the ray are left as
    they were, and two random values are consumed. *)
Theorem generate_startpoint_in_half_disc
  (self : Ray_cylinder npfloat) (rad : R) :
  0 < rad ->
  exists x y : R,
    generate_startpoint (fun k => Fin (random k)) drawn self (Fin rad)
    = ((Fin x, Fin y, Fin 0),
       {| azimut := azimut self; latitude := latitude self;
          startpoint := (Fin x, Fin y, Fin 0); vector := vector self |},
       S (S drawn))
    /\ x * x + y * y < rad * rad
    /\ 0 <= y.
Proof using first_draw second_draw.
  intros Hrad. eexists _, _. split; [apply generate_startpoint_fin |].
  exact (generated_point_inside rad Hrad).
Qed.

(** X7. With draws in [0, 1) and a non-negative bound [m] (in degrees),
    [generate_angles] stores a zenith angle in [0, m pi/180] and an azimuth
    in [0, 2 pi) together with their direction vector, keeps the start
    point, and returns the pair (zenith, azimuth) in this order. *)
Theorem generate_angles_ranges (self : Ray_cylinder npfloat) (m : R) :
  0 <= m ->
  exists lat az : R,
    generate_angles (fun k => Fin (random k)) drawn self (Fin m)
    = ((Fin lat, Fin az),
       {| azimut := Fin az; latitude := Fin lat;
          startpoint := startpoint self;
          vector := direction (Fin az) (Fin lat) |},
       S (S drawn))
    /\ 0 <= lat <= m * (PI / 180)
    /\ 0 <= az < 2 * PI.
Proof using first_draw second_draw.
  intros Hm. pose proof PI_RGT_0 as Hpi.
  exists (random drawn * m * (PI / 180)),
         (random (S drawn) * 360 * (PI / 180)).
  split; [| split].
  - unfold generate_angles. change (of_Z 360) with (Fin 360).
    rewrite !mul_fin, !deg2rad_fin. reflexivity.
  - assert (0 <= random drawn * m <= m) by nra. nra.
  - split; nra.
Qed.

(** X8. A start point produced by [generate_startpoint] for the core radius
    always admits an intersection: for an oblique ray (zenith in
    (0, pi/2)) [calculate_intersection] then returns a point of the core
    wall at a positive height. *)
Theorem generated_start_reaches_wall (az lat rad : R) (sp : vec3 npfloat) :
  0 < rad ->
  0 < lat < PI / 2 ->
  exists x y z : R,
    calculate_intersection
      (generate_startpoint (fun k => Fin (random k)) drawn
         (set_values (Fin az) (Fin lat) sp) (Fin rad)).1.2
      (Fin rad)
    = (Fin x, Fin y, Fin z)
    /\ x * x + y * y = rad * rad
    /\ 0 < z.
Proof using first_draw second_draw.
  intros Hrad Hlat.
  rewrite generate_startpoint_fin. cbn [fst snd].
  destruct (generated_point_inside rad Hrad) as (Hin & _). cbn zeta in Hin.
  set (x0 := random (S drawn) * rad * cos (random drawn * PI)) in *.
  set (y0 := random (S drawn) * rad * sin (random drawn * PI)) in *.
  destruct (chord_inside rad az x0 y0 Hin) as (Hd & Ht).
  assert (Hsin : 0 < sin lat) by (apply sin_gt_0; lra).
  eexists _, _, _. split; [| split].
  - apply (calculate_intersection_chord rad az lat x0 y0 0); lra.
  - apply chord_lands_on_wall. lra.
  - pose proof (cotangent_pos lat Hlat). nra.
Qed.
End Generators.

Lemma generate_startpoint_in_half_disc_witness :
  (0 <= 1 / 2 < 1)%R /\ (0 < 1)%R
  /\ exists x y : R,
       generate_startpoint sample_random 0 oblique_ray (Fin 1)
       = ((Fin x, Fin y, Fin 0),
          {| azimut := azimut oblique_ray; latitude := latitude oblique_ray;
             startpoint := (Fin x, Fin y, Fin 0);
             vector := vector oblique_ray |}, 2%nat)
       /\ (x * x + y * y < 1 * 1)%R /\ (0 <= y)%R.
Proof.
  assert (Hdraw : (0 <= 1 / 2 < 1)%R) by lra.
  assert (Hrad : (0 < 1)%R) by lra.
  split; [exact Hdraw |]. split; [exact Hrad |].
  exact (generate_startpoint_in_half_disc (fun _ => (1 / 2)%R) 0
           Hdraw Hdraw oblique_ray 1 Hrad).
Defined.

Lemma generate_angles_ranges_witness :
  (0 <= 1 / 2 < 1)%R /\ (0 <= 30)%R
  /\ exists lat az : R,
       generate_angles sample_random 0 oblique_ray (Fin 30)
       = ((Fin lat, Fin az),
          {| azimut := Fin az; latitude := Fin lat;
             startpoint := startpoint oblique_ray;
             vector := direction (Fin az) (Fin lat) |}, 2%nat)
       /\ (0 <= lat <= 30 * (PI / 180))%R /\ (0 <= az < 2 * PI)%R.
Proof.
  assert (Hdraw : (0 <= 1 / 2 < 1)%R) by lra.
  assert (Hm : (0 <= 30)%R) by lra.
  split; [exact Hdraw |]. split; [exact Hm |].
  exact (generate_angles_ranges (fun _ => (1 / 2)%R) 0
           Hdraw Hdraw oblique_ray 30 Hm).
Defined.

Lemma generated_start_reaches_wall_witness :
  (0 <= 1 / 2 < 1)%R /\ (0 < 1)%R /\ (0 < PI / 4 < PI / 2)%R
  /\ exists x y z : R,
       calculate_intersection
         (generate_startpoint sample_random 0 oblique_ray (Fin 1)).1.2
         (Fin 1)
       = (Fin x, Fin y, Fin z)
       /\ (x * x + y * y = 1 * 1)%R /\ (0 < z)%R.
Proof.
  assert (Hdraw : (0 <= 1 / 2 < 1)%R) by lra.
  assert (Hrad : (0 < 1)%R) by lra.
  split; [exact Hdraw |]. split; [exact Hrad |].
  split; [exact quarter_pi_bounds |].
  exact (generated_start_reaches_wall (fun _ => (1 / 2)%R) 0
           Hdraw Hdraw 0 (PI / 4) 1 (Fin 0, Fin 0, Fin 0)
           Hrad quarter_pi_bounds).
Defined.

(** ** [Fiber_cone] *)

Section ConeFacts.
Local Open Scope R_scope.

Lemma arcsin_outside (q : R) : q < -1 \/ 1 < q -> np_arcsin (Fin q) = NaN.
Proof.
  intros Hq. cbn. unfold NpFloat.on_unit_interval.
  destruct (Rle_dec (-1) q); [| reflexivity].
  destruct (Rle_dec q 1); [lra | reflexivity].
Qed.

Lemma taper_ratio_fin (zm b t : R) :
  zm <> 0 ->
  Fiber_cone.taper_ratio (Fin zm) (Fin b) (Fin t) = inr (Fin ((b - t) / zm)).
Proof.
  intros Hzm. unfold Fiber_cone.taper_ratio.
  change (of_Z 0) with (Fin 0). rewrite eqb_fin_false by exact Hzm.
  rewrite sub_fin, div_fin by exact Hzm. reflexivity.
Qed.

(** X9. A cone built with [0 < z_max] and [|base_r - top_r| < z_max]: the
    angle is the arcsine of [(base_r - top_r) / z_max], strictly between
    -pi/2 and pi/2, and [c] is its tangent, so that
    [c * sqrt(z_max^2 - (base_r - top_r)^2) = base_r - top_r]: with the
    slope [c] the radius changes from [base_r] to [top_r] over the axial
    length [sqrt(z_max^2 - (base_r - top_r)^2)], [z_max] being the length
    of the slanted wall. *)
Theorem cone_slope (zm b t core clad : R) (diffusion : option npfloat) :
  0 < zm ->
  Rabs (b - t) < zm ->
  exists ang cv : R,
    Fiber_cone.init (Fin zm) (Fin b) (Fin t) (Fin core) (Fin clad) diffusion
    = inr {| Fiber_cone.diffusion := diffusion;
             Fiber_cone.top_r := Fin t; Fiber_cone.base_r := Fin b;
             Fiber_cone.core_n := Fin core; Fiber_cone.clad_n := Fin clad;
             Fiber_cone.z_max := Fin zm;
             Fiber_cone.angle := Fin ang; Fiber_cone.c := Fin cv |}
    /\ - (PI / 2) < ang < PI / 2
    /\ sin ang = (b - t) / zm
    /\ cv = tan ang
    /\ cv * sqrt (zm * zm - (b - t) * (b - t)) = b - t.
Proof.
  intros Hzm Habs.
  set (q := (b - t) / zm).
  assert (Hq : -1 < q < 1).
  { apply Rabs_def2 in Habs. unfold q. split.
    - apply Rmult_lt_reg_r with zm; [exact Hzm |].
      replace ((b - t) / zm * zm) with (b - t) by (field; lra). lra.
    - apply Rmult_lt_reg_r with zm; [exact Hzm |].
      replace ((b - t) / zm * zm) with (b - t) by (field; lra). lra. }
  assert (Hroot : 0 < sqrt (1 - q²)).
  { apply sqrt_lt_R0. unfold Rsqr. nra. }
  assert (Hcos : cos (asin q) = sqrt (1 - q²)) by (apply cos_asin; lra).
  assert (Hsin : sin (asin q) = q) by (apply sin_asin; lra).
  exists (asin q), (sin (asin q) / cos (asin q)).
  split; [| split; [| split; [| split]]].
  - unfold Fiber_cone.init. rewrite taper_ratio_fin by lra. fold q.
    rewrite arcsin_fin by lra. rewrite sin_fin, cos_fin.
    rewrite div_fin by (rewrite Hcos; lra). reflexivity.
  - apply asin_bound_lt. exact Hq.
  - exact Hsin.
  - reflexivity.
  - rewrite Hsin, Hcos.
    replace (zm * zm - (b - t) * (b - t)) with (zm * zm * (1 - q²))
      by (unfold q, Rsqr; field; lra).
    rewrite sqrt_mult_alt by nra. rewrite sqrt_square by lra.
    assert (Hqz : q * zm = b - t) by (unfold q; field; lra).
    set (s := sqrt (1 - q²)) in *.
    replace (q / s * (zm * s)) with (q * zm) by (field; lra).
    exact Hqz.
Qed.

(** X10. A cone built with [|base_r - top_r| > z_max > 0] is not rejected:
    the constructor returns an object whose angle and slope [c] are nan,
    and every normal computed for it has three nan components. *)
Theorem cone_invalid_geometry
  (zm b t core clad : R) (diffusion : option npfloat) :
  0 < zm ->
  zm < Rabs (b - t) ->
  let cone :=
    {| Fiber_cone.diffusion := diffusion;
       Fiber_cone.top_r := Fin t; Fiber_cone.base_r := Fin b;
       Fiber_cone.core_n := Fin core; Fiber_cone.clad_n := Fin clad;
       Fiber_cone.z_max := Fin zm;
       Fiber_cone.angle := NaN; Fiber_cone.c := NaN |} in
  Fiber_cone.init (Fin zm) (Fin b) (Fin t) (Fin core) (Fin clad) diffusion
  = inr cone
  /\ forall p : vec3 npfloat, Fiber_cone.find_normal cone p = nan_point.
Proof.
  intros Hzm Habs cone. split.
  - unfold Fiber_cone.init. rewrite taper_ratio_fin by lra.
    rewrite arcsin_outside; [reflexivity |].
    assert (Hq : forall a, a / zm * zm = a) by (intros a; field; lra).
    unfold Rabs in Habs. destruct (Rcase_abs (b - t)) as [Hneg | Hpos].
    + left. apply Rmult_lt_reg_r with zm; [exact Hzm |]. rewrite Hq. lra.
    + right. apply Rmult_lt_reg_r with zm; [exact Hzm |]. rewrite Hq. lra.
  - intros [[[x |] [y |]] pz]; reflexivity.
Qed.

(** X11. [Fiber_cone.find_normal] is normal to the cone whose radius at
    height [z] is [r = base_r - c z]: at a point of that surface off the
    axis (with a finite non-zero [c]) the result is a unit vector that is
    orthogonal to the tangent [(-y, x, 0)] of the circle through the point
    and to the direction [(-c x, -c y, r)] of the wall line through it,
    and it points towards the axis. *)
Theorem cone_normal_orthogonal
  (cone : Fiber_cone.t npfloat) (cv b x y z : R) :
  Fiber_cone.c cone = Fin cv ->
  Fiber_cone.base_r cone = Fin b ->
  cv <> 0 ->
  let r := b - cv * z in
  r <> 0 ->
  x * x + y * y = r * r ->
  exists nx ny nz : R,
    Fiber_cone.find_normal cone (Fin x, Fin y, Fin z)
    = (Fin nx, Fin ny, Fin nz)
    /\ nx * nx + ny * ny + nz * nz = 1
    /\ nx * (- y) + ny * x = 0
    /\ nx * (- cv * x) + ny * (- cv * y) + nz * r = 0
    /\ nx * x + ny * y < 0.
Proof.
  intros Hc Hb Hcv r Hr Hwall.
  set (z' := - (cv * cv) * (z - b / cv)).
  assert (Hz' : z' = cv * r) by (unfold z', r; field; exact Hcv).
  assert (Hsum : 0 < x * x + y * y + z' * z') by (rewrite Hwall; nra).
  set (d := sqrt (x * x + y * y + z' * z')).
  assert (Hd : 0 < d) by (apply sqrt_lt_R0; exact Hsum).
  assert (Hdd : d * d = x * x + y * y + z' * z') by (apply sqrt_sqrt; lra).
  exists (-1 * x / d), (-1 * y / d), (-1 * z' / d).
  split; [| split; [| split; [| split]]].
  - unfold Fiber_cone.find_normal, idx0, idx1, idx2. cbn [fst snd].
    rewrite Hc, Hb. rewrite !pow2_fin, neg_fin, div_fin by exact Hcv.
    rewrite sub_fin, mul_fin. fold z'.
    rewrite !pow2_fin, !add_fin, sqrt_fin by lra. fold d.
    change (of_Z (-1)) with (Fin (-1)).
    rewrite !mul_fin, !div_fin by lra. reflexivity.
  - replace (-1 * x / d * (-1 * x / d) + -1 * y / d * (-1 * y / d)
             + -1 * z' / d * (-1 * z' / d))
      with ((x * x + y * y + z' * z') / (d * d)) by (field; lra).
    rewrite Hdd. field. lra.
  - field. lra.
  - replace (-1 * x / d * (- cv * x) + -1 * y / d * (- cv * y)
             + -1 * z' / d * r)
      with ((cv * (x * x + y * y) - z' * r) / d) by (field; lra).
    rewrite Hwall, Hz'. field. lra.
  - replace (-1 * x / d * x + -1 * y / d * y)
      with (- ((x * x + y * y) / d)) by (field; lra).
    assert (0 < (x * x + y * y) / d);
      [apply Rdiv_lt_0_compat; [rewrite Hwall; nra | exact Hd] | lra].
Qed.
End ConeFacts.

Section ConeUpdates.
Context {F : Type} `{Numeric F}.

(** X12. [Fiber_cone.set_geometry] succeeds exactly when the constructor
    succeeds on the new geometry with the indices and the diffusion angle
    of the object, and it then leaves the object the constructor would
    build. *)
Theorem cone_set_geometry_rebuilds
  (self cone : Fiber_cone.t F) (z b t : F) :
  Fiber_cone.set_geometry self z b t = (cone, None)
  <-> Fiber_cone.init z b t (Fiber_cone.core_n self)
        (Fiber_cone.clad_n self) (Fiber_cone.diffusion self) = inr cone.
Proof.
  unfold Fiber_cone.set_geometry, Fiber_cone.init.
  destruct (Fiber_cone.taper_ratio z b t) as [e | q].
  - split; intros Heq; discriminate Heq.
  - split; intros Heq.
    + injection Heq as <-. reflexivity.
    + injection Heq as <-. reflexivity.
Qed.
End ConeUpdates.

(** ** The mesh of [cylinder_mesh] *)

Lemma length_py_range (a b : Z) : length (py_range a b) = Z.to_nat (b - a).
Proof. unfold py_range. rewrite length_fmap. apply length_seq. Qed.

Lemma length_but_last {A} (l : list A) :
  length (but_last l) = (length l - 1)%nat.
Proof. unfold but_last. rewrite length_take. lia. Qed.

Lemma foldl_append {A B} (f : B -> list A) (l : list B) (acc : list A) :
  foldl (fun t s => t ++ f s) acc l = acc ++ concat (f <$> l).
Proof.
  revert acc. induction l as [| s l IH]; intros acc; cbn.
  - symmetry. apply app_nil_r.
  - rewrite IH. rewrite <- app_assoc. reflexivity.
Qed.

(** The triangles of slice [s], as the loop of [cylinder_mesh] builds
    them. *)
Lemma mesh_triangles_slices (n_slices : Z) :
  mesh_triangles n_slices
  = concat
      ((fun s =>
          slice_triangles 0 (n_slices * 2 + 1) s
            (if (s <=? n_slices - 1)%Z then (s + 1)%Z else 1%Z)
            (if (s <=? n_slices - 1)%Z
             then ((if (s <=? n_slices - 1)%Z then (s + 1)%Z else 1%Z)
                   + n_slices)%Z
             else (n_slices + 1)%Z)
            (s + n_slices)%Z)
         <$> py_range 1 (n_slices + 1)).
Proof. unfold mesh_triangles. cbn zeta. apply (foldl_append _ _ []). Qed.

Lemma Forall_concat_fmap {A B} (P : A -> Prop) (f : B -> list A)
  (l : list B) :
  (forall s, s ∈ l -> Forall P (f s)) -> Forall P (concat (f <$> l)).
Proof.
  induction l as [| s l IH]; intros Hall; cbn.
  - constructor.
  - apply Forall_app. split.
    + apply Hall. left.
    + apply IH. intros s' Hs'. apply Hall. right. exact Hs'.
Qed.

Lemma length_concat_fmap {A B} (f : B -> list A) (l : list B) (m : nat) :
  (forall s, length (f s) = m) ->
  length (concat (f <$> l)) = (m * length l)%nat.
Proof.
  intros Hm. induction l as [| s l IH]; cbn.
  - lia.
  - rewrite length_app, IH, Hm. lia.
Qed.

Section MeshFacts.
Context {F : Type} `{Numeric F}.

Lemma np_linspace_length (start stop : F) (num : Z) :
  (0 <= num)%Z ->
  exists l, np_linspace start stop num = inr l
            /\ length l = Z.to_nat num.
Proof.
  intros Hnum. unfold np_linspace.
  destruct (Z.ltb_spec num 0) as [Hneg | _]; [lia |].
  eexists. split; [reflexivity |].
  assert (Hlen : forall (g : F -> F) (y : list F),
             length y = Z.to_nat num ->
             length (if (1 <? num)%Z then but_last (g <$> y) ++ [stop]
                     else g <$> y) = Z.to_nat num).
  { intros g y Hy. destruct (Z.ltb_spec 1 num) as [Hbig | Hsmall].
    - rewrite length_app, length_but_last, length_fmap, Hy. cbn. lia.
    - rewrite length_fmap. exact Hy. }
  apply Hlen.
  destruct (0 <? num - 1)%Z; [destruct (_ == _)%np |];
    rewrite !length_fmap, length_py_range; f_equal; lia.
Qed.

(** X14. For [n_slices >= 0], [cylinder_mesh] returns [2 n_slices + 2]
    vertices, the first of which is the centre of the bottom disc
    [(xs, ys, zs)], and [4 n_slices] triangles, and every index in a
    triangle is the index of a vertex. *)
Theorem cylinder_mesh_indices (r xs ys zs h : F) (n_slices : Z) :
  (0 <= n_slices)%Z ->
  exists vertices triangles x y z1 z2,
    cylinder_mesh r xs ys zs h n_slices
    = inr (vertices, triangles, x, y, z1, z2)
    /\ Z.of_nat (length vertices) = (2 * n_slices + 2)%Z
    /\ Z.of_nat (length triangles) = (4 * n_slices)%Z
    /\ vertices !! 0%nat = Some (xs, ys, zs)
    /\ Forall (fun t : Z * Z * Z =>
                 (0 <= t.1.1 < Z.of_nat (length vertices))%Z
                 /\ (0 <= t.1.2 < Z.of_nat (length vertices))%Z
                 /\ (0 <= t.2 < Z.of_nat (length vertices))%Z)
              triangles.
Proof.
  intros Hn. unfold cylinder_mesh.
  destruct (np_linspace_length (of_Z 0) (np_mul (of_Z 2) np_pi)
              (n_slices + 1)) as (theta & -> & Htheta); [lia |].
  cbn zeta.
  match goal with
  | |- context [inr (?v, ?t, ?x, ?y, ?z1, ?z2)] =>
      set (V := v); exists V, t, x, y, z1, z2
  end.
  split; [reflexivity |].
  match goal with
  | |- ?len = _ /\ _ => assert (Hvert : len = (2 * n_slices + 2)%Z)
  end.
  { unfold V. rewrite length_zip_with, length_zip.
    rewrite !length_app, !length_but_last, !length_fmap, Htheta. cbn. lia. }
  split; [exact Hvert |]. split; [| split].
  - rewrite mesh_triangles_slices.
    rewrite (length_concat_fmap _ _ 4) by reflexivity.
    rewrite length_py_range. lia.
  - reflexivity.
  - rewrite mesh_triangles_slices.
    apply Forall_concat_fmap. intros s Hs.
    apply py_range_elem in Hs. unfold slice_triangles.
    destruct (Z.leb_spec s (n_slices - 1));
      repeat first [apply Forall_nil_2 | apply Forall_cons_2];
      cbn [fst snd]; rewrite !Hvert; lia.
Qed.

(** X15. With at least two slices no triangle of [cylinder_mesh] is
    degenerate: its three vertex indices are pairwise different. *)
Theorem cylinder_mesh_triangles_proper (n_slices : Z) :
  (2 <= n_slices)%Z ->
  Forall (fun t : Z * Z * Z => t.1.1 <> t.1.2 /\ t.1.2 <> t.2 /\ t.1.1 <> t.2)
         (mesh_triangles n_slices).
Proof.
  intros Hn. rewrite mesh_triangles_slices.
  apply Forall_concat_fmap. intros s Hs.
  apply py_range_elem in Hs. unfold slice_triangles.
  destruct (Z.leb_spec s (n_slices - 1));
    repeat first [apply Forall_nil_2 | apply Forall_cons_2];
    cbn [fst snd]; lia.
Qed.
End MeshFacts.

(** ** The shape of every result of [calculate_trajectory] *)

Section ResultShape.
Context {F : Type} `{Numeric F}.
Variable random : nat -> F.
Variable fiber : Fiber_cylinder F.
Variable angle_elimination : bool.

Local Abbreviation body := (loop_body random fiber angle_elimination).
Local Abbreviation before :=
  (state_before random fiber angle_elimination).
Local Abbreviation trajectory :=
  (calculate_trajectory random fiber angle_elimination).

(** An iteration writes row [i] of both arrays and nothing else; when it
    returns, the count is [i + 1] and the reason is 'z_max', or
    'reflection_angle' with angle elimination switched on. *)
Lemma body_shape (i : Z) (st : loop_state F) :
  (0 <= i < Z.of_nat (length (Dots st)))%Z ->
  (0 <= i < Z.of_nat (length (Angles st)))%Z ->
  exists rowD rowA : vec3 F,
    (exists st', body i st = Normal st'
                 /\ Dots st' = <[Z.to_nat i := rowD]> (Dots st)
                 /\ Angles st' = <[Z.to_nat i := rowA]> (Angles st))
    \/ (exists reason : string,
          body i st
          = Returned (<[Z.to_nat i := rowD]> (Dots st),
                      rad2deg_rows (<[Z.to_nat i := rowA]> (Angles st)),
                      (i + 1)%Z, reason)
          /\ (reason = "z_max"%string
              \/ (reason = "reflection_angle"%string
                  /\ angle_elimination = true))).
Proof.
  intros HD HA. unfold loop_body.
  destruct (idx2 (calculate_intersection (self st) (core_r fiber))
              >? z_max fiber)%np.
  { rewrite !setitem_in_range by assumption. cbn [mbind flow_bind].
    eexists _, _. right. eexists. split; [reflexivity | left; reflexivity]. }
  destruct (calculate_reflection _ _ _) as [[az lat] ra].
  destruct (diffusion_on fiber) as [d |];
    rewrite !setitem_in_range by assumption; cbn [mbind flow_bind];
    (destruct angle_elimination; cbn [andb];
     [destruct (_ <? _)%np |]);
    eexists _, _;
    first [ right; eexists; split; [reflexivity | right; split; reflexivity]
          | left; eexists; split; [reflexivity | split; reflexivity] ].
Qed.

Lemma loop_init_not_returned (ray : Ray_cylinder F) (n : Z) (r : result F) :
  loop_init fiber ray n <> Returned r.
Proof.
  unfold loop_init, index_ratio, np_zeros.
  destruct (core_n fiber == of_Z 0)%np; [discriminate |]. cbn.
  destruct (n <? 0)%Z; [discriminate |]. cbn.
  destruct (setitem _ 0 (startpoint ray)) as [D | r' | e] eqn:HD;
    cbn; [| | discriminate].
  - destruct (setitem _ 0 (azimut ray, latitude ray, of_Z 0))
      as [A | r' | e] eqn:HA; cbn; [discriminate | | discriminate].
    unfold setitem in HA. destruct (_ && _); discriminate.
  - unfold setitem in HD. destruct (_ && _); discriminate.
Qed.

(** Where a [return] of the loop comes from. *)
Lemma before_returned (ray : Ray_cylinder F) (n : Z) (k : nat)
  (r : result F) :
  before ray n (Z.of_nat k + 1) = Returned r ->
  exists i st, (1 <= i <= Z.of_nat k)%Z
               /\ before ray n i = Normal st
               /\ body i st = Returned r.
Proof.
  induction k as [| k IH]; intros Hr.
  - cbn [Z.of_nat Z.add] in Hr. rewrite before_first in Hr.
    exfalso. exact (loop_init_not_returned ray n r Hr).
  - replace (Z.of_nat (S k) + 1)%Z with ((Z.of_nat k + 1) + 1)%Z in Hr by lia.
    rewrite before_next in Hr by lia.
    destruct (before ray n (Z.of_nat k + 1)) as [st | r' | e] eqn:Hprev;
      cbn in Hr; [| | discriminate].
    + exists (Z.of_nat k + 1)%Z, st. split; [lia |]. split; assumption.
    + injection Hr as <-.
      destruct (IH eq_refl) as (i & st & Hi & Hst & Hbody).
      exists i, st. split; [lia |]. split; assumption.
Qed.

(** A call that returns has at least one row and either ran through the
    whole loop or returned from one of its iterations. *)
Lemma trajectory_inversion (ray : Ray_cylinder F) (n : Z) (r : result F) :
  trajectory ray n = inr r ->
  (1 <= n)%Z
  /\ ((exists st, before ray n n = Normal st
                  /\ r = (Dots st, rad2deg_rows (Angles st), n,
                          "max_reflections"%string))
      \/ (exists i st, (1 <= i < n)%Z
                       /\ before ray n i = Normal st
                       /\ body i st = Returned r)).
Proof.
  intros Hr. unfold calculate_trajectory in Hr.
  assert (Hn : (1 <= n)%Z).
  { destruct (Z.le_gt_cases 1 n) as [Hn | Hn]; [exact Hn | exfalso].
    unfold state_before in Hr. rewrite py_range_empty in Hr by lia.
    destruct (loop_init fiber ray n) as [st | r' | e] eqn:Hinit;
      cbn in Hr.
    - apply arrays_ok_init in Hinit as ((HD & _ & H0) & _).
      apply lookup_lt_Some in H0. lia.
    - exact (loop_init_not_returned ray n r' Hinit).
    - discriminate. }
  split; [exact Hn |].
  destruct (before ray n n) as [st | r' | e] eqn:Hend; [| | discriminate].
  - left. exists st. split; [reflexivity |]. congruence.
  - right. injection Hr as ->.
    replace n with (Z.of_nat (Z.to_nat (n - 1)) + 1)%Z in Hend at 2 by lia.
    destruct (before_returned ray n _ r Hend) as (i & st & Hi & Hst & Hb).
    exists i, st. split; [lia |]. split; assumption.
Qed.

(** Rows that no iteration has written yet are still zero, and row 0 of
    [Angles] keeps the launch angles. *)
Lemma before_untouched_rows (ray : Ray_cylinder F) (n : Z) (k : nat)
  (st : loop_state F) :
  before ray n (Z.of_nat k + 1) = Normal st ->
  (Z.of_nat k + 1 <= n)%Z ->
  Angles st !! 0%nat = Some (azimut ray, latitude ray, of_Z 0)
  /\ forall j : nat,
       (k < j)%nat -> (Z.of_nat j < n)%Z ->
       Dots st !! j = Some (of_Z 0, of_Z 0, of_Z 0)
       /\ Angles st !! j = Some (of_Z 0, of_Z 0, of_Z 0).
Proof.
  revert st. induction k as [| k IH]; intros st Hst Hk.
  - cbn [Z.of_nat Z.add] in Hst. rewrite before_first in Hst.
    assert (Hcore : (core_n fiber == of_Z 0)%np = false).
    { unfold loop_init, index_ratio in Hst.
      destruct (core_n fiber == of_Z 0)%np; [discriminate | reflexivity]. }
    rewrite loop_init_normal in Hst by (assumption || lia).
    injection Hst as <-. cbn [Dots Angles]. split.
    + apply list_lookup_insert_eq. rewrite length_replicate. lia.
    + intros j Hj Hjn.
      rewrite !list_lookup_insert_ne by lia.
      split; apply lookup_replicate_2; lia.
  - destruct (before_inversion random fiber angle_elimination ray n
                (S k) st Hst Hk) as (_ & _ & Hprev).
    destruct (Hprev k eq_refl) as (prev & Hbefore & Hbody & _).
    destruct (before_inversion random fiber angle_elimination ray n
                k prev Hbefore) as ((HD & HA & _) & _); [lia |].
    destruct (IH prev Hbefore) as (H0 & Hrest); [lia |].
    destruct (body_shape (Z.of_nat k + 1) prev)
      as (rowD & rowA & [(st' & Hst' & HDots & HAngles)
                        | (reason & Hret & _)]); [lia | lia | |].
    + rewrite Hbody in Hst'. injection Hst' as <-.
      rewrite HDots, HAngles. split.
      * rewrite list_lookup_insert_ne by lia. exact H0.
      * intros j Hj Hjn. rewrite !list_lookup_insert_ne by lia.
        apply Hrest; lia.
    + rewrite Hbody in Hret. discriminate.
Qed.

(** With a non-zero core index and at least one row nothing is raised:
    an iteration is reached with both arrays intact, or the call has
    returned. *)
Lemma before_normal_or_returned (ray : Ray_cylinder F) (n : Z) (k : nat) :
  (core_n fiber == of_Z 0)%np = false ->
  (1 <= n)%Z ->
  (Z.of_nat k + 1 <= n)%Z ->
  (exists st, before ray n (Z.of_nat k + 1) = Normal st
              /\ arrays_ok ray n st)
  \/ (exists r, before ray n (Z.of_nat k + 1) = Returned r).
Proof.
  intros Hcore Hn. induction k as [| k IH]; intros Hk.
  - cbn [Z.of_nat Z.add]. rewrite before_first.
    left. rewrite loop_init_normal by assumption.
    eexists. split; [reflexivity |].
    eapply (arrays_ok_init fiber).
    apply (loop_init_normal fiber); assumption.
  - replace (Z.of_nat (S k) + 1)%Z with ((Z.of_nat k + 1) + 1)%Z by lia.
    rewrite before_next by lia.
    destruct IH as [(st & Hst & Hok) | (r & Hr)]; [lia | |].
    + rewrite Hst. cbn.
      destruct (body_cases random fiber angle_elimination
                  ray n (Z.of_nat k + 1) st)
        as [(r & Hr) | (st' & Hst' & Hok' & _)]; [lia | exact Hok | |].
      * right. eauto.
      * left. eauto.
    + right. rewrite Hr. cbn. eauto.
Qed.

(** A call with a non-zero core index and at least one row returns. *)
Lemma trajectory_returns (ray : Ray_cylinder F) (n : Z) :
  (core_n fiber == of_Z 0)%np = false ->
  (1 <= n)%Z ->
  exists r, trajectory ray n = inr r.
Proof.
  intros Hcore Hn. unfold calculate_trajectory.
  destruct (before_normal_or_returned ray n (Z.to_nat (n - 1)) Hcore Hn)
    as [(st & Hst & _) | (r & Hr)]; [lia | |];
    replace (Z.of_nat (Z.to_nat (n - 1)) + 1)%Z with n in * by lia.
  - rewrite Hst. eauto.
  - rewrite Hr. eauto.
Qed.

(** X16. Every call with a non-zero core index and at least one row
    returns.  Both arrays have [max_reflection] rows; the count is between
    1 and [max_reflection], it is [max_reflection] for the reason
    'max_reflections' and at least 2 for the two other reasons, which are
    the only ones; row 0 holds the start point and the launch angles
    (converted to degrees); and the rows from the count on are the rows of
    zeros that [np.zeros] created. *)
Theorem trajectory_result_shape (ray : Ray_cylinder F) (n : Z) :
  (core_n fiber == of_Z 0)%np = false ->
  (1 <= n)%Z ->
  exists Dots Angles count reason,
    trajectory ray n = inr (Dots, Angles, count, reason)
    /\ length Dots = Z.to_nat n
    /\ length Angles = Z.to_nat n
    /\ (1 <= count <= n)%Z
    /\ ((reason = "max_reflections"%string /\ count = n)
        \/ ((reason = "z_max"%string \/ reason = "reflection_angle"%string)
            /\ (2 <= count)%Z))
    /\ Dots !! 0%nat = Some (startpoint ray)
    /\ Angles !! 0%nat
       = Some (rad2deg_row (azimut ray, latitude ray, of_Z 0))
    /\ forall j : nat,
         (count <= Z.of_nat j < n)%Z ->
         Dots !! j = Some (of_Z 0, of_Z 0, of_Z 0)
         /\ Angles !! j = Some (rad2deg_row (of_Z 0, of_Z 0, of_Z 0)).
Proof.
  intros Hcore Hn.
  destruct (before_normal_or_returned ray n (Z.to_nat (n - 1)) Hcore Hn)
    as [(st & Hst & Hok) | (r & Hr)]; [lia | |].
  - (* the loop runs to its end *)
    pose proof Hst as Hst'.
    replace (Z.of_nat (Z.to_nat (n - 1)) + 1)%Z with n in Hst' by lia.
    destruct Hok as (HD & HA & H0).
    destruct (before_untouched_rows ray n _ st Hst) as (HA0 & Hrest);
      [lia |].
    exists (Dots st), (rad2deg_rows (Angles st)), n,
           "max_reflections"%string.
    unfold calculate_trajectory. rewrite Hst'.
    split; [reflexivity |]. unfold rad2deg_rows. rewrite length_fmap.
    split; [exact HD |]. split; [exact HA |]. split; [lia |].
    split; [left; split; reflexivity |]. split; [exact H0 |].
    split; [rewrite list_lookup_fmap;
            exact (f_equal (fmap rad2deg_row) HA0) |].
    intros j Hj. lia.
  - (* a return inside the loop *)
    destruct (before_returned ray n _ r Hr) as (i & st & Hi & Hst & Hbody).
    replace (Z.of_nat (Z.to_nat (n - 1)) + 1)%Z with n in Hr by lia.
    assert (Hst' : before ray n (Z.of_nat (Z.to_nat (i - 1)) + 1)
                   = Normal st)
      by (replace (Z.of_nat (Z.to_nat (i - 1)) + 1)%Z with i by lia;
          exact Hst).
    destruct (before_inversion random fiber angle_elimination ray n
                _ st Hst') as ((HD & HA & H0) & _); [lia |].
    destruct (before_untouched_rows ray n _ st Hst') as (HA0 & Hrest);
      [lia |].
    destruct (body_shape i st)
      as (rowD & rowA & [(st' & Hnormal & _) | (reason & Hret & Hreason)]);
      [lia | lia | |].
    { rewrite Hbody in Hnormal. discriminate. }
    rewrite Hbody in Hret. injection Hret as ->.
    eexists _, _, _, reason.
    unfold calculate_trajectory. rewrite Hr.
    split; [reflexivity |]. unfold rad2deg_rows.
    rewrite length_fmap, !length_insert.
    split; [exact HD |]. split; [exact HA |]. split; [lia |].
    split; [right; split; [tauto | lia] |].
    split; [rewrite list_lookup_insert_ne by lia; exact H0 |].
    split.
    + rewrite list_lookup_fmap, list_lookup_insert_ne by lia.
      exact (f_equal (fmap rad2deg_row) HA0).
    + intros j Hj.
      rewrite list_lookup_fmap, !list_lookup_insert_ne by lia.
      destruct (Hrest j) as (HDj & HAj); [lia | lia |].
      split; [exact HDj | exact (f_equal (fmap rad2deg_row) HAj)].
Qed.
End ResultShape.

(** ** Results that do not depend on the chosen options *)

Section Options.
Context {F : Type} `{Numeric F}.

(** One iteration does not read the random source when the fibre has no
    diffusion. *)
Lemma body_without_diffusion (random random' : nat -> F)
  (fiber : Fiber_cylinder F) (angle_elimination : bool) (i : Z)
  (st : loop_state F) :
  diffusion_on fiber = None ->
  loop_body random fiber angle_elimination i st
  = loop_body random' fiber angle_elimination i st.
Proof. intros Hdiff. unfold loop_body. rewrite Hdiff. reflexivity. Qed.

(** X17. Without diffusion ([fiber.diffusion] is [None] or zero) the
    result of [calculate_trajectory] does not depend on the values that
    [np.random.random] would deliver. *)
Theorem trajectory_without_diffusion (random random' : nat -> F)
  (fiber : Fiber_cylinder F) (angle_elimination : bool)
  (ray : Ray_cylinder F) (n : Z) :
  diffusion_on fiber = None ->
  calculate_trajectory random fiber angle_elimination ray n
  = calculate_trajectory random' fiber angle_elimination ray n.
Proof.
  intros Hdiff. unfold calculate_trajectory, state_before.
  destruct (loop_init fiber ray n) as [st | r | e]; cbn; try reflexivity.
  assert (Hloop : forall indices st0,
             for_loop (loop_body random fiber angle_elimination) indices st0
             = for_loop (loop_body random' fiber angle_elimination)
                 indices st0).
  { induction indices as [| i rest IH]; intros st0; [reflexivity |].
    cbn [for_loop].
    rewrite (body_without_diffusion random random') by exact Hdiff.
    destruct (loop_body random' fiber angle_elimination i st0);
      cbn; [apply IH | reflexivity ..]. }
  rewrite Hloop. reflexivity.
Qed.

(** X18. With [angle_elimination = False] the reason 'reflection_angle'
    is never returned, whatever the fibre, the ray, the random draws and
    the number of rows. *)
Theorem no_elimination_no_critical_exit (random : nat -> F)
  (fiber : Fiber_cylinder F) (ray : Ray_cylinder F) (n : Z)
  (Dots Angles : list (vec3 F)) (count : Z) :
  calculate_trajectory random fiber false ray n
  <> inr (Dots, Angles, count, "reflection_angle"%string).
Proof.
  intros Hr.
  destruct (trajectory_inversion random fiber false ray n _ Hr)
    as (Hn & [(st & _ & Hmax) | (i & st & Hi & Hst & Hbody)]).
  - discriminate.
  - assert (Hst' : state_before random fiber false ray n
                     (Z.of_nat (Z.to_nat (i - 1)) + 1) = Normal st)
      by (replace (Z.of_nat (Z.to_nat (i - 1)) + 1)%Z with i by lia;
          exact Hst).
    destruct (before_inversion random fiber false ray n _ st Hst')
      as ((HD & HA & _) & _); [lia |].
    destruct (body_shape random fiber false i st)
      as (rowD & rowA & [(st' & Hnormal & _) | (reason & Hret & Hreason)]);
      [lia | lia | |].
    + rewrite Hbody in Hnormal. discriminate.
    + rewrite Hbody in Hret.
      destruct Hreason as [-> | (_ & Hae)]; discriminate.
Qed.

(** X19. The errors of [calculate_trajectory]: it raises exactly when the
    core index is zero (ZeroDivisionError, from
    [fiber.clad_n / fiber.core_n]), or else when [max_reflection] is
    negative (ValueError, from [np.zeros]) or zero (IndexError, from
    [Dots[0] = ...]). *)
Theorem trajectory_errors (random : nat -> F) (fiber : Fiber_cylinder F)
  (angle_elimination : bool) (ray : Ray_cylinder F) (n : Z) (e : exn) :
  calculate_trajectory random fiber angle_elimination ray n = inl e
  <-> ((core_n fiber == of_Z 0)%np = true /\ e = ZeroDivisionError)
      \/ ((core_n fiber == of_Z 0)%np = false
          /\ (n < 0)%Z /\ e = ValueError)
      \/ ((core_n fiber == of_Z 0)%np = false
          /\ n = 0%Z /\ e = IndexError).
Proof.
  destruct (core_n fiber == of_Z 0)%np eqn:Hcore.
  - (* the division raises first *)
    assert (Hraise : calculate_trajectory random fiber angle_elimination
                       ray n = inl ZeroDivisionError).
    { unfold calculate_trajectory, state_before, loop_init, index_ratio.
      rewrite Hcore. reflexivity. }
    rewrite Hraise. split.
    + intros [= <-]. left. split; reflexivity.
    + intros [(_ & ->) | [(Hf & _) | (Hf & _)]];
        [reflexivity | discriminate ..].
  - destruct (Z.lt_trichotomy n 0) as [Hneg | [-> | Hpos]].
    + assert (Hraise : calculate_trajectory random fiber angle_elimination
                         ray n = inl ValueError).
      { unfold calculate_trajectory, state_before, loop_init, index_ratio,
          np_zeros.
        rewrite Hcore. cbn [mbind flow_bind].
        destruct (n <? 0)%Z eqn:Hn; [reflexivity | lia]. }
      rewrite Hraise. split.
      * intros [= <-]. right. left. repeat split. exact Hneg.
      * intros [(Hf & _) | [(_ & _ & ->) | (_ & Hn & _)]];
          [discriminate | reflexivity | lia].
    + assert (Hraise : calculate_trajectory random fiber angle_elimination
                         ray 0 = inl IndexError).
      { unfold calculate_trajectory, state_before.
        rewrite loop_init_zero by exact Hcore. reflexivity. }
      rewrite Hraise. split.
      * intros [= <-]. right. right. repeat split.
      * intros [(Hf & _) | [(_ & Hn & _) | (_ & _ & ->)]];
          [discriminate | lia | reflexivity].
    + destruct (trajectory_returns random fiber angle_elimination
                  ray n Hcore) as (r & Hr); [lia |].
      rewrite Hr. split; [discriminate |].
      intros [(Hf & _) | [(_ & Hn & _) | (_ & Hn & _)]];
        [discriminate | lia | lia].
Qed.
End Options.

(** ** An oblique ray in an ideal fibre: no diffusion *)

Section IdealFibre.
Local Open Scope R_scope.
Variable random : nat -> npfloat.
Variable fiber : Fiber_cylinder npfloat.
Variable angle_elimination : bool.

Local Abbreviation body := (loop_body random fiber angle_elimination).
Local Abbreviation before :=
  (state_before random fiber angle_elimination).
Local Abbreviation trajectory :=
  (calculate_trajectory random fiber angle_elimination).




(** What an admissible launch gives. *)
Lemma launch_facts (l : launch) :
  launch_ok l ->
  l_rad l <> 0
  /\ 0 < sin (l_lat l)
  /\ 0 < cos (l_lat l)
  /\ 0 < launch_discriminant l
  /\ 0 < sqrt (launch_discriminant l)
  /\ 0 < pitch l
  /\ l_z l < first_height l.
Proof.
  intros [Hlat Hin].
  destruct (chord_inside (l_rad l) (l_az l) (l_x l) (l_y l) Hin)
    as (Hd & Hc).
  assert (Hsin : 0 < sin (l_lat l)) by (apply sin_gt_0; lra).
  assert (Hcos : 0 < cos (l_lat l)) by (apply cos_gt_0; lra).
  assert (Hs : 0 < sqrt (launch_discriminant l))
    by (apply sqrt_lt_R0; exact Hd).
  pose proof (cotangent_pos (l_lat l) Hlat) as Hcot.
  repeat split; try assumption.
  - intros Hrad. rewrite Hrad in Hin.
    pose proof (Rle_0_sqr (l_x l)) as Hx.
    pose proof (Rle_0_sqr (l_y l)) as Hy. unfold Rsqr in Hx, Hy. lra.
  - unfold pitch. apply Rmult_lt_0_compat; lra.
  - unfold first_height.
    assert (0 < cos (l_lat l) / sin (l_lat l)
                * chord (l_rad l) (l_az l) (l_x l) (l_y l))
      by (apply Rmult_lt_0_compat; assumption).
    lra.
Qed.










End IdealFibre.

(** ** Instances of the properties above *)

Lemma three_below_five : (Rabs (4 - 1) < 5)%R.
Proof. unfold Rabs. destruct (Rcase_abs (4 - 1)); lra. Qed.

Lemma one_below_three : (1 < Rabs (3 - 0))%R.
Proof. unfold Rabs. destruct (Rcase_abs (3 - 0)); lra. Qed.

Lemma cone_slope_witness :
  (0 < 5)%R /\ (Rabs (4 - 1) < 5)%R
  /\ exists ang cv : R,
       Fiber_cone.init (Fin 5) (Fin 4) (Fin 1) (Fin (3 / 2)) (Fin 1) None
       = inr {| Fiber_cone.diffusion := None;
                Fiber_cone.top_r := Fin 1; Fiber_cone.base_r := Fin 4;
                Fiber_cone.core_n := Fin (3 / 2);
                Fiber_cone.clad_n := Fin 1;
                Fiber_cone.z_max := Fin 5;
                Fiber_cone.angle := Fin ang; Fiber_cone.c := Fin cv |}
       /\ (cv * sqrt (5 * 5 - (4 - 1) * (4 - 1)) = 4 - 1)%R.
Proof.
  assert (Hz : (0 < 5)%R) by lra.
  split; [exact Hz |]. split; [exact three_below_five |].
  destruct (cone_slope 5%R 4%R 1%R (3 / 2)%R 1%R None Hz three_below_five)
    as (ang & cv & Heq & _ & _ & _ & Hslope).
  exists ang, cv. split; assumption.
Defined.

Lemma cone_invalid_geometry_witness :
  (0 < 1)%R /\ (1 < Rabs (3 - 0))%R
  /\ exists cone,
       Fiber_cone.init (Fin 1) (Fin 3) (Fin 0) (Fin (3 / 2)) (Fin 1) None
       = inr cone
       /\ Fiber_cone.find_normal cone (Fin 1, Fin 0, Fin 0) = nan_point.
Proof.
  assert (Hz : (0 < 1)%R) by lra.
  split; [exact Hz |]. split; [exact one_below_three |].
  destruct (cone_invalid_geometry 1%R 3%R 0%R (3 / 2)%R 1%R None
              Hz one_below_three) as (Heq & Hnormal).
  eexists. split; [exact Heq | apply Hnormal].
Defined.

Lemma cone_normal_orthogonal_witness :
  (1 <> 0)%R /\ (2 - 1 * 1 <> 0)%R
  /\ (1 * 1 + 0 * 0 = (2 - 1 * 1) * (2 - 1 * 1))%R
  /\ exists nx ny nz : R,
       Fiber_cone.find_normal
         {| Fiber_cone.diffusion := None;
            Fiber_cone.top_r := Fin 1; Fiber_cone.base_r := Fin 2;
            Fiber_cone.core_n := Fin (3 / 2); Fiber_cone.clad_n := Fin 1;
            Fiber_cone.z_max := Fin 5;
            Fiber_cone.angle := Fin (PI / 4); Fiber_cone.c := Fin 1 |}
         (Fin 1, Fin 0, Fin 1)
       = (Fin nx, Fin ny, Fin nz)
       /\ (nx * nx + ny * ny + nz * nz = 1)%R.
Proof.
  assert (Hc : (1 <> 0)%R) by lra.
  assert (Hr : (2 - 1 * 1 <> 0)%R) by lra.
  assert (Hs : (1 * 1 + 0 * 0 = (2 - 1 * 1) * (2 - 1 * 1))%R) by lra.
  split; [exact Hc |]. split; [exact Hr |]. split; [exact Hs |].
  destruct (cone_normal_orthogonal
              {| Fiber_cone.diffusion := None;
                 Fiber_cone.top_r := Fin 1; Fiber_cone.base_r := Fin 2;
                 Fiber_cone.core_n := Fin (3 / 2);
                 Fiber_cone.clad_n := Fin 1;
                 Fiber_cone.z_max := Fin 5;
                 Fiber_cone.angle := Fin (PI / 4);
                 Fiber_cone.c := Fin 1 |}
              1%R 2%R 1%R 0%R 1%R eq_refl eq_refl Hc Hr Hs)
    as (nx & ny & nz & Heq & Hunit & _).
  exists nx, ny, nz. split; assumption.
Defined.

Lemma cylinder_mesh_indices_witness :
  (0 <= 2)%Z
  /\ exists vertices triangles x y z1 z2,
       cylinder_mesh (Fin 1) (Fin 0) (Fin 0) (Fin 0) (Fin 3) 2
       = inr (vertices, triangles, x, y, z1, z2)
       /\ Z.of_nat (length vertices) = 6%Z
       /\ Z.of_nat (length triangles) = 8%Z.
Proof.
  assert (Hn : (0 <= 2)%Z) by lia.
  split; [exact Hn |].
  destruct (cylinder_mesh_indices (Fin 1) (Fin 0) (Fin 0) (Fin 0) (Fin 3)
              2 Hn)
    as (vertices & triangles & x & y & z1 & z2 & Heq & Hv & Ht & _).
  exists vertices, triangles, x, y, z1, z2.
  split; [exact Heq |]. split; [exact Hv | exact Ht].
Defined.

Lemma cylinder_mesh_triangles_proper_witness :
  (2 <= 2)%Z
  /\ Forall (fun t : Z * Z * Z =>
               t.1.1 <> t.1.2 /\ t.1.2 <> t.2 /\ t.1.1 <> t.2)
            (mesh_triangles 2).
Proof.
  assert (Hn : (2 <= 2)%Z) by lia.
  split; [exact Hn |].
  exact (cylinder_mesh_triangles_proper 2 Hn).
Defined.

Lemma one_below_five : (1 <= 5)%Z.
Proof. lia. Qed.

Lemma trajectory_result_shape_witness :
  (core_n (sample_fiber (148 / 100) (146 / 100) 1) == of_Z 0)%np = false
  /\ (1 <= 5)%Z
  /\ exists Dots Angles count reason,
       calculate_trajectory sample_random
         (sample_fiber (148 / 100) (146 / 100) 1) true oblique_ray 5
       = inr (Dots, Angles, count, reason)
       /\ length Dots = 5%nat
       /\ (1 <= count <= 5)%Z
       /\ Dots !! 0%nat = Some (Fin 0, Fin 0, Fin 0).
Proof.
  split; [exact sample_core_index |]. split; [exact one_below_five |].
  destruct (trajectory_result_shape sample_random
              (sample_fiber (148 / 100) (146 / 100) 1) true oblique_ray 5
              sample_core_index one_below_five)
    as (D & A & count & reason & Heq & HD & _ & Hcount & _ & H0 & _).
  exists D, A, count, reason.
  split; [exact Heq |]. split; [exact HD |]. split; [exact Hcount |].
  exact H0.
Defined.

Lemma trajectory_without_diffusion_witness :
  diffusion_on (sample_fiber (148 / 100) (146 / 100) 1) = None
  /\ calculate_trajectory sample_random
       (sample_fiber (148 / 100) (146 / 100) 1) true oblique_ray 5
     = calculate_trajectory (fun _ => Fin 0)
         (sample_fiber (148 / 100) (146 / 100) 1) true oblique_ray 5.
Proof.
  split; [reflexivity |].
  exact (trajectory_without_diffusion sample_random (fun _ => Fin 0)
           (sample_fiber (148 / 100) (146 / 100) 1) true oblique_ray 5
           eq_refl).
Defined.















(** The incidence value of an admissible launch is negative. *)
Lemma incidence_launch_negative (l : launch) :
  launch_ok l -> (incidence l < 0)%R.
Proof.
  intros Hok.
  destruct (launch_facts l Hok) as (Hrad & Hsin & _ & _ & Hs & _ & _).
  assert (Hr : (0 < sqrt (l_rad l * l_rad l))%R).
  { apply sqrt_lt_R0.
    pose proof (Rle_0_sqr (l_rad l)) as Hsq. unfold Rsqr in Hsq. nra. }
  unfold incidence.
  assert (0 < sin (l_lat l) * sqrt (launch_discriminant l)
              / sqrt (l_rad l * l_rad l))%R.
  { apply Rdiv_lt_0_compat; [apply Rmult_lt_0_compat |]; assumption. }
  unfold Rdiv in *. lra.
Qed.

(** A launch with an incidence value of magnitude at least 10^-3 is
    neither nearly axial nor nearly tangent to the wall: the sine of its
    zenith angle and the radial part [sqrt(D) / R] of its transverse
    direction at the wall are both at least 10^-3. *)
Lemma robust_launch_bounds (l : launch) :
  launch_ok l ->
  launch_robust l ->
  (1 / 1000 <= sin (l_lat l)
   /\ sqrt (l_rad l * l_rad l) / 1000 <= sqrt (launch_discriminant l))%R.
Proof.
  intros Hok Hrobust.
  pose proof (incidence_launch_negative l Hok) as Hneg.
  destruct (launch_facts l Hok) as (Hrad & Hsin & _ & Hd & Hs & _ & _).
  unfold launch_robust in Hrobust. rewrite Rabs_left in Hrobust by exact Hneg.
  unfold incidence in Hrobust, Hneg.
  assert (Hr : (0 < sqrt (l_rad l * l_rad l))%R).
  { apply sqrt_lt_R0.
    pose proof (Rle_0_sqr (l_rad l)) as Hsq. unfold Rsqr in Hsq. nra. }
  assert (Hle : (sqrt (launch_discriminant l)
                 <= sqrt (l_rad l * l_rad l))%R).
  { apply sqrt_le_1; [lra | nra |].
    unfold launch_discriminant, discriminant.
    pose proof (cos2_sin2_one (l_az l)) as Hcs.
    pose proof (Rle_0_sqr (sin (l_az l) * l_x l - cos (l_az l) * l_y l))
      as Hsq. unfold Rsqr in Hsq.
    assert (Hcauchy :
              ((cos (l_az l) * l_x l + sin (l_az l) * l_y l)
               * (cos (l_az l) * l_x l + sin (l_az l) * l_y l)
               + (sin (l_az l) * l_x l - cos (l_az l) * l_y l)
                 * (sin (l_az l) * l_x l - cos (l_az l) * l_y l)
               = (cos (l_az l) * cos (l_az l) + sin (l_az l) * sin (l_az l))
                 * (l_x l * l_x l + l_y l * l_y l))%R) by ring.
    rewrite Hcs in Hcauchy. lra. }
  pose proof (SIN_bound (l_lat l)) as [_ Hs1].
  set (s := sin (l_lat l)) in *.
  set (q := sqrt (launch_discriminant l)) in *.
  set (r := sqrt (l_rad l * l_rad l)) in *.
  assert (Hquot : (1 / 1000 <= s * q / r)%R).
  { replace (s * q / r)%R with (- (- (s * q) / r))%R
      by (unfold Rdiv; ring). exact Hrobust. }
  assert (Hprod : (r / 1000 <= s * q)%R).
  { apply (Rmult_le_compat_r r) in Hquot; [| lra].
    replace (s * q / r * r)%R with (s * q)%R in Hquot by (field; lra).
    lra. }
  split; nra.
Qed.




